(** * PM_tools: the response parser of [src/index.js]

    The only decision logic of the application is the block of
    [handleSubmit] that turns the text of a chat completion into the
    object handed to [setGeneratedContent] (lines 76-96), together with
    the helper [extractSection] (lines 106-136).  This file embeds that
    code and the JavaScript built-ins it calls:

    - [String.prototype.toLowerCase], [trim], [includes], [split],
      [Array.prototype.join] and [some];
    - [String.prototype.match] for the one regular expression of the
      file, through a small backtracking matcher;
    - [JSON.parse], as a recursive-descent parser of the JSON grammar.

    Texts are sequences of UTF-16 code units below 256 (the Latin-1
    range), one [ascii] per code unit; on that range [toLowerCase] acts
    unit by unit.  Strings decoded by [JSON.parse] may hold any code unit
    (through [\uXXXX]) and are lists of [N]. *)

From Stdlib Require Import Bool Arith NArith Lia List Ascii String Permutation.
Import ListNotations.

Local Open Scope string_scope.
Local Open Scope bool_scope.
Set Warnings "-register-all".

(** ** JavaScript strings *)

Module Js.

Definition code (c : ascii) : N := N_of_ascii c.

(** WhiteSpace and LineTerminator code units below 256: TAB, LF, VT, FF,
    CR, SP and NBSP.  They are what [trim] strips and what [\s] matches. *)
Definition isWhiteSpace (c : ascii) : bool :=
  let n := code c in
  ((9 <=? n) && (n <=? 13) || (n =? 32) || (n =? 160))%N.

(** Lower-casing of one code unit: A-Z, and the Latin-1 capitals
    U+00C0-U+00DE without the multiplication sign U+00D7. *)
Definition toLowerUnit (c : ascii) : ascii :=
  let n := code c in
  if ((65 <=? n) && (n <=? 90) || (192 <=? n) && (n <=? 222) && negb (n =? 215))%N
  then ascii_of_N (n + 32) else c.

Fixpoint toLowerCase (s : string) : string :=
  match s with
  | EmptyString => EmptyString
  | String c s' => String (toLowerUnit c) (toLowerCase s')
  end.

Fixpoint trimStart (s : string) : string :=
  match s with
  | EmptyString => EmptyString
  | String c s' => if isWhiteSpace c then trimStart s' else s
  end.

Definition isEmpty (s : string) : bool :=
  match s with EmptyString => true | String _ _ => false end.

Fixpoint trimEnd (s : string) : string :=
  match s with
  | EmptyString => EmptyString
  | String c s' =>
      let t := trimEnd s' in
      if isWhiteSpace c && isEmpty t then EmptyString else String c t
  end.

Definition trim (s : string) : string := trimEnd (trimStart s).

Fixpoint startsWith (p s : string) : bool :=
  match p, s with
  | EmptyString, _ => true
  | String _ _, EmptyString => false
  | String a p', String b s' => Ascii.eqb a b && startsWith p' s'
  end.

(** [s.includes(k)]: [k] occurs in [s] at some position. *)
Fixpoint includes (k s : string) : bool :=
  match s with
  | EmptyString => startsWith k EmptyString
  | String _ s' => startsWith k s || includes k s'
  end.

Definition newline : ascii := ascii_of_N 10.
Definition nl : string := String newline EmptyString.

(** [s.split('\n')]: never empty, one more element than newlines. *)
Fixpoint split (s : string) : list string :=
  match s with
  | EmptyString => [EmptyString]
  | String c s' =>
      if Ascii.eqb c newline then EmptyString :: split s'
      else match split s' with
           | l :: ls => String c l :: ls
           | [] => [String c EmptyString]
           end
  end.

(** [a.join(sep)] *)
Fixpoint join (sep : string) (a : list string) : string :=
  match a with
  | [] => EmptyString
  | [x] => x
  | x :: xs => x ++ sep ++ join sep xs
  end.

(** [a || b] on strings: the empty string is the only falsy one. *)
Definition orElse (a b : string) : string := if isEmpty a then b else a.

End Js.

(** ** The regular expression of line 80 *)

Module Regex.

Inductive regex : Type :=
| Eps
| Chr (c : ascii)
| Seq (r1 r2 : regex)
| Opt (r : regex)                  (* r?  greedy *)
| Star (p : ascii -> bool)         (* [class]*  greedy *)
| Grp (r : regex).                 (* the capturing group *)

Fixpoint Lit (s : string) : regex :=
  match s with
  | EmptyString => Eps
  | String c s' => Seq (Chr c) (Lit s')
  end.

Section Matcher.
Context {R : Type}.

(** Greedy iteration of a character class: take one more unit when
    possible and come back to the shorter match when the rest fails. *)
Fixpoint star (p : ascii -> bool) (s : string) (k : string -> option R)
  : option R :=
  match s with
  | EmptyString => k EmptyString
  | String c s' =>
      if p c then
        match star p s' k with
        | Some r => Some r
        | None => k s
        end
      else k s
  end.

(** Backtracking matcher in continuation-passing style: [k] receives
    the text left and the capture recorded so far. *)
Fixpoint run (r : regex) (s : string) (cap : option string)
    (k : string -> option string -> option R) : option R :=
  match r with
  | Eps => k s cap
  | Chr c =>
      match s with
      | String c' s' => if Ascii.eqb c c' then k s' cap else None
      | EmptyString => None
      end
  | Seq r1 r2 => run r1 s cap (fun s' cap' => run r2 s' cap' k)
  | Opt r1 =>
      match run r1 s cap k with
      | Some x => Some x
      | None => k s cap
      end
  | Star p => star p s (fun s' => k s' cap)
  | Grp r1 =>
      run r1 s cap
        (fun s' _ => k s' (Some (substring 0 (length s - length s') s)))
  end.
End Matcher.

(** A match anchored at the head of [s]: the capture of the group. *)
Definition matchHere (r : regex) (s : string) : option (option string) :=
  run r s None (fun _ cap => Some cap).

(** [s.match(r)] without the [g] flag: the leftmost position where the
    pattern matches wins. *)
Fixpoint exec (r : regex) (s : string) : option (option string) :=
  match matchHere r s with
  | Some cap => Some cap
  | None =>
      match s with
      | EmptyString => None
      | String _ s' => exec r s'
      end
  end.

Definition any (_ : ascii) : bool := true.

Definition fence : string := "```".

(** /```(?:json)?\s*(\{[\s\S]*\})\s*```/ *)
Definition jsonFence : regex :=
  Seq (Lit fence)
   (Seq (Opt (Lit "json"))
    (Seq (Star Js.isWhiteSpace)
     (Seq (Grp (Seq (Chr "{") (Seq (Star any) (Chr "}"))))
      (Seq (Star Js.isWhiteSpace) (Lit fence))))).

End Regex.

(** ** [JSON.parse] *)

Module Json.

(** A string of a decoded value: UTF-16 code units. *)
Definition jsstring : Type := list N.

Definition units (s : string) : jsstring :=
  List.map Js.code (list_ascii_of_string s).

(** The values [JSON.parse] returns.  A number keeps its literal (the
    conversion to a double is not modelled); an object keeps its members
    in source order, a later duplicate key shadowing an earlier one. *)
Inductive JSValue : Type :=
| JNull
| JBool (b : bool)
| JNumber (literal : string)
| JString (s : jsstring)
| JArray (elems : list JSValue)
| JObject (members : list (jsstring * JSValue)).

Inductive outcome (A : Type) : Type :=
| Parsed (a : A) (rest : string)
| SyntaxError
| OutOfFuel.
Arguments Parsed {A} a rest.
Arguments SyntaxError {A}.
Arguments OutOfFuel {A}.

(** JSON white space: SP, TAB, LF, CR. *)
Definition isJsonWs (c : ascii) : bool :=
  let n := Js.code c in ((n =? 32) || (n =? 9) || (n =? 10) || (n =? 13))%N.

Fixpoint skipWs (s : string) : string :=
  match s with
  | EmptyString => EmptyString
  | String c s' => if isJsonWs c then skipWs s' else s
  end.

Definition isDigit (c : ascii) : bool :=
  let n := Js.code c in ((48 <=? n) && (n <=? 57))%N.

Definition hexVal (c : ascii) : option N :=
  let n := Js.code c in
  if ((48 <=? n) && (n <=? 57))%N then Some (n - 48)%N
  else if ((65 <=? n) && (n <=? 70))%N then Some (n - 55)%N
  else if ((97 <=? n) && (n <=? 102))%N then Some (n - 87)%N
  else None.

Definition hex4 (a b c d : ascii) : option N :=
  match hexVal a, hexVal b, hexVal c, hexVal d with
  | Some x, Some y, Some z, Some w => Some (((x * 16 + y) * 16 + z) * 16 + w)%N
  | _, _, _, _ => None
  end.

(** The two-character escapes of a JSON string: quote, backslash,
    slash, b, f, n, r and t, with the code unit each stands for. *)
Definition simpleEscape (c : ascii) : option N :=
  match Js.code c with
  | 34%N => Some 34%N
  | 92%N => Some 92%N
  | 47%N => Some 47%N
  | 98%N => Some 8%N
  | 102%N => Some 12%N
  | 110%N => Some 10%N
  | 114%N => Some 13%N
  | 116%N => Some 9%N
  | _ => None
  end.

(** The characters of a string after its opening quote, up to and
    including the closing quote. *)
Fixpoint parseChars (s : string) (acc : jsstring) : outcome jsstring :=
  match s with
  | EmptyString => SyntaxError
  | String c s' =>
      if Ascii.eqb c "034" then Parsed (rev acc) s'
      else if Ascii.eqb c "\" then
        match s' with
        | EmptyString => SyntaxError
        | String e s'' =>
            match simpleEscape e with
            | Some u => parseChars s'' (u :: acc)
            | None =>
                if Ascii.eqb e "u" then
                  match s'' with
                  | String h1 (String h2 (String h3 (String h4 s5))) =>
                      match hex4 h1 h2 h3 h4 with
                      | Some u => parseChars s5 (u :: acc)
                      | None => SyntaxError
                      end
                  | _ => SyntaxError
                  end
                else SyntaxError
            end
        end
      else if (Js.code c <? 32)%N then SyntaxError
      else parseChars s' (Js.code c :: acc)
  end.

(** The longest prefix of digits, and what follows it. *)
Fixpoint digits (s : string) : string * string :=
  match s with
  | EmptyString => (EmptyString, EmptyString)
  | String c s' =>
      if isDigit c then let (d, r) := digits s' in (String c d, r)
      else (EmptyString, s)
  end.

(** An optional minus sign. *)
Definition numSign (s : string) : string * string :=
  match s with
  | String c s' => if Ascii.eqb c "-" then ("-", s') else (EmptyString, s)
  | EmptyString => (EmptyString, s)
  end.

(** The integer part: 0 alone, or a nonzero digit and digits. *)
Definition numInt (s : string) : option (string * string) :=
  match s with
  | String c s' =>
      if Ascii.eqb c "0" then Some ("0", s')
      else if isDigit c then Some (digits s)
      else None
  | EmptyString => None
  end.

(** An optional fraction: a dot and at least one digit. *)
Definition numFrac (s : string) : option (string * string) :=
  match s with
  | String c s' =>
      if Ascii.eqb c "." then
        let (d, r) := digits s' in
        if Js.isEmpty d then None else Some (String c d, r)
      else Some (EmptyString, s)
  | EmptyString => Some (EmptyString, s)
  end.

(** An optional exponent: e or E, an optional sign, at least one
    digit. *)
Definition numExp (s : string) : option (string * string) :=
  match s with
  | String c s' =>
      if Ascii.eqb c "e" || Ascii.eqb c "E" then
        let (sg, s2) := 
          match s' with
          | String x t =>
              if Ascii.eqb x "+" || Ascii.eqb x "-"
              then (String x EmptyString, t) else (EmptyString, s')
          | EmptyString => (EmptyString, s')
          end in
        let (d, r) := digits s2 in
        if Js.isEmpty d then None else Some (String c (sg ++ d), r)
      else Some (EmptyString, s)
  | EmptyString => Some (EmptyString, s)
  end.

(** A number literal at the head of [s], and what follows it. *)
Definition parseNumber (s : string) : outcome string :=
  let (sign, s1) := numSign s in
  match numInt s1 with
  | None => SyntaxError
  | Some (i, s2) =>
      match numFrac s2 with
      | None => SyntaxError
      | Some (f, s3) =>
          match numExp s3 with
          | None => SyntaxError
          | Some (e, s4) => Parsed (sign ++ i ++ f ++ e) s4
          end
      end
  end.

(** What is left of [s] after the prefix [p], when it begins with it. *)
Fixpoint stripPrefix (p s : string) : option string :=
  match p with
  | EmptyString => Some s
  | String a p' =>
      match s with
      | String b s' => if Ascii.eqb a b then stripPrefix p' s' else None
      | EmptyString => None
      end
  end.

(** The three literal names. *)
Definition parseLiteral (s : string) : option (JSValue * string) :=
  match stripPrefix "true" s with
  | Some r => Some (JBool true, r)
  | None =>
      match stripPrefix "false" s with
      | Some r => Some (JBool false, r)
      | None =>
          match stripPrefix "null" s with
          | Some r => Some (JNull, r)
          | None => None
          end
      end
  end.

(** [s] begins with the unit [c]: what follows it. *)
Definition expect (c : ascii) (s : string) : option string :=
  match s with
  | String c' s' => if Ascii.eqb c c' then Some s' else None
  | EmptyString => None
  end.

(** One JSON value at the head of [s] (no leading white space), by
    recursive descent; [parseElements] and [parseMembers] read what
    follows an opening bracket or brace that is not closed at once.
    The double quote is the unit 34. *)
Fixpoint parseValue (fuel : nat) (s : string) : outcome JSValue :=
  match fuel with
  | O => OutOfFuel
  | S fuel' =>
      match s with
      | EmptyString => SyntaxError
      | String c s' =>
          if Ascii.eqb c "{" then
            match expect "}" (skipWs s') with
            | Some r => Parsed (JObject []) r
            | None => parseMembers fuel' (skipWs s') []
            end
          else if Ascii.eqb c "[" then
            match expect "]" (skipWs s') with
            | Some r => Parsed (JArray []) r
            | None => parseElements fuel' (skipWs s') []
            end
          else if Ascii.eqb c "034" then
            match parseChars s' [] with
            | Parsed str r => Parsed (JString str) r
            | SyntaxError => SyntaxError
            | OutOfFuel => OutOfFuel
            end
          else
            match parseLiteral s with
            | Some (v, r) => Parsed v r
            | None =>
                match parseNumber s with
                | Parsed lit r => Parsed (JNumber lit) r
                | SyntaxError => SyntaxError
                | OutOfFuel => OutOfFuel
                end
            end
      end
  end
with parseElements (fuel : nat) (s : string) (acc : list JSValue)
  : outcome JSValue :=
  match fuel with
  | O => OutOfFuel
  | S fuel' =>
      match parseValue fuel' s with
      | Parsed v r =>
          match expect "," (skipWs r) with
          | Some r' => parseElements fuel' (skipWs r') (v :: acc)
          | None =>
              match expect "]" (skipWs r) with
              | Some r' => Parsed (JArray (rev (v :: acc))) r'
              | None => SyntaxError
              end
          end
      | SyntaxError => SyntaxError
      | OutOfFuel => OutOfFuel
      end
  end
with parseMembers (fuel : nat) (s : string) (acc : list (jsstring * JSValue))
  : outcome JSValue :=
  match fuel with
  | O => OutOfFuel
  | S fuel' =>
      match expect "034" s with
      | None => SyntaxError
      | Some s' =>
          match parseChars s' [] with
          | Parsed key r =>
              match expect ":" (skipWs r) with
              | None => SyntaxError
              | Some r1 =>
                  match parseValue fuel' (skipWs r1) with
                  | Parsed v r2 =>
                      match expect "," (skipWs r2) with
                      | Some r3 =>
                          parseMembers fuel' (skipWs r3) ((key, v) :: acc)
                      | None =>
                          match expect "}" (skipWs r2) with
                          | Some r3 =>
                              Parsed (JObject (rev ((key, v) :: acc))) r3
                          | None => SyntaxError
                          end
                      end
                  | SyntaxError => SyntaxError
                  | OutOfFuel => OutOfFuel
                  end
              end
          | SyntaxError => SyntaxError
          | OutOfFuel => OutOfFuel
          end
      end
  end.

(** Fuel that always suffices for a text of this length. *)
Definition enough (s : string) : nat := 2 * length s + 1.

(** The outcome is not a lack of fuel. *)
Definition completed {A : Type} (o : outcome A) : bool :=
  match o with
  | OutOfFuel => false
  | _ => true
  end.

(** The whole text must be one value between optional white space. *)
Definition parseText (fuel : nat) (text : string) : outcome JSValue :=
  match parseValue fuel (skipWs text) with
  | Parsed v r =>
      match skipWs r with
      | EmptyString => Parsed v EmptyString
      | String _ _ => SyntaxError
      end
  | SyntaxError => SyntaxError
  | OutOfFuel => OutOfFuel
  end.

(** [JSON.parse(text)]: [None] stands for a thrown [SyntaxError]. *)
Definition parse (text : string) : option JSValue :=
  match parseText (enough text) text with
  | Parsed v _ => Some v
  | _ => None
  end.

Fixpoint eqUnits (a b : jsstring) : bool :=
  match a, b with
  | [], [] => true
  | x :: a', y :: b' => (x =? y)%N && eqUnits a' b'
  | _, _ => false
  end.

(** The value a member list gives a key: the last member of that name. *)
Fixpoint lookup (key : jsstring) (members : list (jsstring * JSValue))
  : option JSValue :=
  match members with
  | [] => None
  | (k, v) :: ms =>
      match lookup key ms with
      | Some w => Some w
      | None => if eqUnits key k then Some v else None
      end
  end.

(** [v.key] for a value handed to the view: [None] is [undefined]. *)
Definition get (v : JSValue) (key : string) : option JSValue :=
  match v with
  | JObject ms => lookup (units key) ms
  | _ => None
  end.

End Json.

(** ** The parser of [src/index.js] *)

Import Js Json.

Definition sentinel : string := "Content not found in expected format".

(** The test of line 112 on the lower-cased [line]:
    [keywords.some(keyword => line.includes(keyword) &&
                   (line.includes(':') || line.includes('#')))]. *)
Definition isHeader (keywords : list string) (line : string) : bool :=
  existsb
    (fun keyword =>
       includes keyword line && (includes ":" line || includes "#" line))
    keywords.

(** Lines 119-122: the first of the following lines that does not trim
    to the empty string; [None] when the index runs past the end. *)
Fixpoint nextNonEmpty (rest : list string) : option string :=
  match rest with
  | [] => None
  | l :: rest' => if isEmpty (trim l) then nextNonEmpty rest' else Some l
  end.

(** The test of lines 124-125 on the look-ahead line. *)
Definition hasMark (l : string) : bool :=
  includes ":" (toLowerCase l) || includes "#" (toLowerCase l).

(** Lines 123-125: the look-ahead line exists and holds a colon or a
    hash sign. *)
Definition startsNewSection (next : option string) : bool :=
  match next with
  | Some l => hasMark l
  | None => false
  end.

(** The [for] loop of lines 110-133 from index [i] on: [lines] is
    [lines[i..]], [section] and [inSection] are the two variables of the
    function, and the result is [section] when the loop is left. *)
Fixpoint scan (keywords : list string) (lines : list string)
    (section : list string) (inSection : bool) : list string :=
  match lines with
  | [] => section
  | l :: rest =>
      let line := toLowerCase l in
      if isHeader keywords line then scan keywords rest section true
      else if inSection then
        if isEmpty (trim line) && Nat.ltb 0 (List.length section)
           && startsNewSection (nextNonEmpty rest)
        then section
        else scan keywords rest (section ++ [l]) inSection
      else scan keywords rest section inSection
  end.

(** [extractSection(lines, ...keywords)], lines 106-136. *)
Definition extractSection (lines : list string) (keywords : list string)
  : string :=
  orElse (trim (join nl (scan keywords lines [] false))) sentinel.

(** The [try] block of lines 78-85: [None] when [JSON.parse] throws.
    [jsonMatch[1]] of a match whose group took no part is [undefined],
    which [JSON.parse] reads as the text "undefined". *)
Definition tryParse (content : string) : option JSValue :=
  match Regex.exec Regex.jsonFence content with
  | Some jsonMatch =>
      match jsonMatch with
      | Some inner => Json.parse inner
      | None => Json.parse "undefined"
      end
  | None => Json.parse content
  end.

(** The keyword arguments of the three calls, lines 90-92. *)
Definition resolutionKeywords : list string := ["resolution"; "criteria"].
Definition descriptionKeywords : list string := ["description"].
Definition edgeKeywords : list string := ["edge"; "cases"].

(** An object literal with the three properties, in the order of
    lines 90-92. *)
Definition record (resolutionCriteria description edgeCases : string)
  : JSValue :=
  JObject
    [ (units "resolutionCriteria", JString (units resolutionCriteria));
      (units "description", JString (units description));
      (units "edgeCases", JString (units edgeCases)) ].

(** The [catch] block, lines 88-93. *)
Definition heuristic (content : string) : JSValue :=
  let lines := split content in
  record (extractSection lines resolutionKeywords)
         (extractSection lines descriptionKeywords)
         (extractSection lines edgeKeywords).

(** Lines 76-96 of [handleSubmit]: the value of [parsedContent] that
    reaches [setGeneratedContent] for the response text [content]. *)
Definition parseModelResponse (content : string) : JSValue :=
  match tryParse content with
  | Some parsedContent => parsedContent
  | None => heuristic content
  end.

(** ** Vocabulary of the statements *)

(** Every code unit of [s] is white space: [s] trims to the empty
    string. *)
Fixpoint allWhiteSpace (s : string) : bool :=
  match s with
  | EmptyString => true
  | String c s' => isWhiteSpace c && allWhiteSpace s'
  end.

(** A blank line. *)
Definition blank (l : string) : bool := allWhiteSpace l.

(** The keywords of the three calls together. *)
Definition allKeywords : list string :=
  resolutionKeywords ++ descriptionKeywords ++ edgeKeywords.

(** A property that is present and holds a string that is not empty. *)
Definition isText (field : option JSValue) : bool :=
  match field with
  | Some (JString (_ :: _)) => true
  | _ => false
  end.

Definition isPresent (field : option JSValue) : bool :=
  match field with
  | Some _ => true
  | None => false
  end.

(** The three properties the view reads (lines 205, 212 and 219). *)
Definition fullyPopulated (v : JSValue) : bool :=
  isText (get v "resolutionCriteria") && isText (get v "description")
  && isText (get v "edgeCases").

Definition hasAllKeys (v : JSValue) : bool :=
  isPresent (get v "resolutionCriteria") && isPresent (get v "description")
  && isPresent (get v "edgeCases").

(** ** Sections of a heuristic-mode text *)

(** A section as the splitter expects it: a header line and the lines
    of its body. *)
Record block : Type := { header : string; body : list string }.

Definition blockLines (s : block) : list string := header s :: body s.

(** A string that can be one element of [split]: it holds no newline. *)
Definition isLine (l : string) : bool := negb (includes nl l).

(** Some line of [ls] is not a header of the set: a section with
    these lines collects something. *)
Definition collects (keywords : list string) (ls : list string) : bool :=
  existsb (fun l => negb (isHeader keywords (toLowerCase l))) ls.

(** [s] is the section of the keyword set [own]: its header satisfies
    the header rule of [own] and not that of the two other sets
    ([others]); its body has a line that is not a header of [own]; and
    no body line satisfies the header rule of the other sets (a body
    line may repeat the header of its own set). *)
Definition wellFormed (own others : list string) (s : block) : bool :=
  isLine (header s)
  && isHeader own (toLowerCase (header s))
  && negb (isHeader others (toLowerCase (header s)))
  && collects own (body s)
  && forallb
       (fun l => isLine l && negb (isHeader others (toLowerCase l)))
       (body s).

(** The lines between two sections: at least one, all blank. *)
Definition separator (sep : list string) : bool :=
  negb (Nat.eqb (List.length sep) 0)
  && forallb (fun l => isLine l && blank l) sep.

(** The six orders of the resolution (R), description (D) and edge-case
    (E) sections. *)
Inductive order : Type := RDE | RED | DRE | DER | ERD | EDR.

Definition arrange (o : order) (R D E : block) : block * block * block :=
  match o with
  | RDE => (R, D, E)
  | RED => (R, E, D)
  | DRE => (D, R, E)
  | DER => (D, E, R)
  | ERD => (E, R, D)
  | EDR => (E, D, R)
  end.

Definition layoutLines (o : order) (R D E : block)
    (sep1 sep2 : list string) : list string :=
  let '(s1, s2, s3) := arrange o R D E in
  (blockLines s1 ++ sep1 ++ blockLines s2 ++ sep2 ++ blockLines s3)%list.

(** The text with the three sections in the order [o]. *)
Definition layout (o : order) (R D E : block) (sep1 sep2 : list string)
  : string :=
  join nl (layoutLines o R D E sep1 sep2).

(** What the splitter makes of each section taken alone. *)
Definition sectionRecord (R D E : block) : JSValue :=
  record (extractSection (blockLines R) resolutionKeywords)
         (extractSection (blockLines D) descriptionKeywords)
         (extractSection (blockLines E) edgeKeywords).

(** No line of [ls] satisfies the header rule of [keywords]. *)
Definition noHeader (keywords : list string) (ls : list string) : bool :=
  forallb (fun l => negb (isHeader keywords (toLowerCase l))) ls.

(** [s] begins with a header of [keywords] and goes on with at least
    one line, none of them a header of [keywords]. *)
Definition ownSection (keywords : list string) (s : block) : bool :=
  isHeader keywords (toLowerCase (header s))
  && negb (Nat.eqb (List.length (body s)) 0)
  && noHeader keywords (body s).

(** What may follow a section: the end of the text, or a blank line
    whose look-ahead ends the section. *)
Definition boundary (post : list string) : bool :=
  match post with
  | [] => true
  | b :: rest => blank b && startsNewSection (nextNonEmpty rest)
  end.

(** ** Example texts *)

Definition resolutionBlock : block :=
  {| header := "Resolution Criteria:"; body := ["YES if X happens."] |}.
Definition descriptionBlock : block :=
  {| header := "Description:"; body := ["This market tracks X."; ""; "More."] |}.
Definition edgeBlock : block :=
  {| header := "## Edge cases"; body := ["Ambiguous if Y."] |}.

(** A description whose second line mentions the criteria, with a colon. *)
Definition proseBlock : block :=
  {| header := "Description:"; body := ["Per the criteria: X"; "more"] |}.

(** A description whose header also names the edge cases. *)
Definition ambiguousBlock : block :=
  {| header := "Description, with edge cases:"; body := ["D"] |}.

(** A resolution header with no body. *)
Definition bareBlock : block :=
  {| header := "Resolution Criteria:"; body := [] |}.

(** The double quote, which a string literal of this file cannot hold. *)
Definition dq : string := String (ascii_of_N 34) EmptyString.

Definition quoted (s : string) : string := dq ++ s ++ dq.

(** ** Fenced blocks *)

(** At the head of [s]: a closing brace, optional white space and a
    triple backtick, which is what ends the capture of line 80. *)
Definition closesHere (s : string) : bool :=
  match s with
  | String c s' => Ascii.eqb "}" c && startsWith Regex.fence (trimStart s')
  | EmptyString => false
  end.

(** Such an ending begins somewhere in [s]. *)
Fixpoint closesWithin (s : string) : bool :=
  match s with
  | EmptyString => false
  | String _ s' => closesHere s || closesWithin s'
  end.

(** A triple backtick begins inside [pre] when [rest] follows it. *)
Fixpoint opensBefore (pre rest : string) : bool :=
  match pre with
  | EmptyString => false
  | String _ pre' =>
      startsWith Regex.fence (pre ++ rest) || opensBefore pre' rest
  end.

(** The pattern of line 80 up to its opening brace. *)
Definition opening : Regex.regex :=
  Regex.Seq (Regex.Lit Regex.fence)
    (Regex.Seq (Regex.Opt (Regex.Lit "json"))
       (Regex.Seq (Regex.Star isWhiteSpace) (Regex.Chr "{"))).

(** The pattern opens at the head of [s]: a triple backtick, an
    optional [json], optional white space and an opening brace. *)
Definition opensHere (s : string) : bool :=
  match Regex.matchHere opening s with
  | Some _ => true
  | None => false
  end.

(** The pattern opens at one of the first [n] positions of [s]. *)
Fixpoint opensWithin (n : nat) (s : string) : bool :=
  match n, s with
  | S n', String _ s' => opensHere s || opensWithin n' s'
  | _, _ => false
  end.

(** The optional language tag of the pattern. *)
Definition isTag (tag : string) : bool :=
  String.eqb tag "" || String.eqb tag "json".

(** A text around one fenced block whose content is braced. *)
Definition fencedText (pre tag ws1 mid ws2 post : string) : string :=
  pre ++ Regex.fence ++ tag ++ ws1 ++ "{" ++ mid ++ "}" ++ ws2
      ++ Regex.fence ++ post.

(** What follows the greedy iteration inside the group: a closing
    brace, then the end of the pattern, with the capture that the group
    records there ([whole] is the text at the opening brace). *)
Definition afterStar {R : Type} (whole : string)
    (k : string -> option string -> option R) (t : string) : option R :=
  Regex.run (Regex.Chr "}") t None
    (fun s' _ =>
       Regex.run (Regex.Seq (Regex.Star isWhiteSpace) (Regex.Lit Regex.fence))
         s' (Some (substring 0 (length whole - length s') whole)) k).

Definition member (key value : string) : string :=
  quoted key ++ ":" ++ quoted value.

(** The JSON text of a record with the three keys. *)
Definition recordText (a b c : string) : string :=
  "{" ++ member "resolutionCriteria" a ++ "," ++ member "description" b
      ++ "," ++ member "edgeCases" c ++ "}".

Definition fencedJson (inner : string) : string :=
  Regex.fence ++ "json" ++ nl ++ inner ++ nl ++ Regex.fence.

(** Scenario A of the specification, with prose on both sides. *)
Definition scenarioA : string :=
  "Here is the market:" ++ nl ++ fencedJson (recordText "X" "Y" "Z")
    ++ nl ++ "Let me know if `this` helps.".

(** A fenced block of code that opens no brace, then the fenced
    record. *)
Definition afterCodeProse : string :=
  "Some code:" ++ nl ++ Regex.fence ++ "python" ++ nl ++ "print({})" ++ nl
    ++ Regex.fence ++ nl ++ "The market:" ++ nl.

Definition afterCodeText : string :=
  afterCodeProse ++ fencedJson (recordText "X" "Y" "Z")
    ++ nl ++ "Let me know if `this` helps.".

(** A fenced block that is not JSON, then the fenced record. *)
Definition earlierFence : string :=
  Regex.fence ++ "{oops}" ++ Regex.fence ++ nl
    ++ fencedJson (recordText "X" "Y" "Z").

(** Two fenced records. *)
Definition twoFences : string :=
  fencedJson (recordText "X" "Y" "Z") ++ nl ++ "Alternatively:" ++ nl
    ++ fencedJson (recordText "P" "Q" "R").

(** A JSON object with two of the three keys (scenario B of the
    specification). *)
Definition twoKeyObject : string :=
  "{" ++ quoted "resolutionCriteria" ++ ":" ++ quoted "r" ++ ","
      ++ quoted "description" ++ ":" ++ quoted "d" ++ "}".

(** Scenario C of the specification. *)
Definition scenarioC : string :=
  join nl [ "Resolution Criteria:"; "Market resolves YES if X happens."; "";
            "Description:"; "This market tracks X."; "";
            "Edge Cases:"; "Ambiguous if Y." ].

(** A body with a blank line followed by a line that holds a colon and
    no keyword. *)
Definition noteText : string :=
  join nl ["Description:"; "foo"; ""; "Note: bar"].

(** Two headers with no blank line between the sections. *)
Definition adjacentText : string :=
  join nl ["Resolution Criteria:"; "A"; "Description:"; "B"].

(** ** The submit handler and the form *)

(** The five state variables of [App], lines 6-10.  [generatedContent]
    is a JavaScript value, [JNull] being [null]; [error] is [null] or a
    message. *)
Record AppState : Type := {
  question : string;
  resolutionDate : string;
  loading : bool;
  generatedContent : JSValue;
  error : option string
}.

Definition setQuestion (v : string) (st : AppState) : AppState :=
  {| question := v; resolutionDate := resolutionDate st;
     loading := loading st; generatedContent := generatedContent st;
     error := error st |}.

Definition setResolutionDate (v : string) (st : AppState) : AppState :=
  {| question := question st; resolutionDate := v;
     loading := loading st; generatedContent := generatedContent st;
     error := error st |}.

Definition setLoading (v : bool) (st : AppState) : AppState :=
  {| question := question st; resolutionDate := resolutionDate st;
     loading := v; generatedContent := generatedContent st;
     error := error st |}.

Definition setGeneratedContent (v : JSValue) (st : AppState) : AppState :=
  {| question := question st; resolutionDate := resolutionDate st;
     loading := loading st; generatedContent := v; error := error st |}.

Definition setError (v : option string) (st : AppState) : AppState :=
  {| question := question st; resolutionDate := resolutionDate st;
     loading := loading st; generatedContent := generatedContent st;
     error := v |}.

(** The messages of lines 16, 27, 70 and 98. *)
Definition validationMessage : string :=
  "Please fill in both the question and resolution date".
Definition keyMessage : string :=
  "OpenAI API key not configured. Please add REACT_APP_OPENAI_API_KEY to your .env file.".
Definition failureMessage : string := "Failed to generate content".
Definition genericMessage : string :=
  "An error occurred while generating content".

(** What the request of lines 31-74 comes to.  [Rejected]: [fetch] or
    [response.json()] rejects, or [data.choices[0].message.content]
    cannot be read or is no string, an exception with this message
    ([""] when it has none).  [Failed]: [response.ok] is false, with
    [errorData.error?.message] when there is one.  [Completed]: the
    string [data.choices[0].message.content]. *)
Inductive Reply : Type :=
| Rejected (message : string)
| Failed (message : option string)
| Completed (content : string).

(** Line 26: [!apiKey || apiKey === 'YOUR_API_KEY_HERE'], the variable
    being undefined ([None]) or a string. *)
Definition keyMissing (apiKey : option string) : bool :=
  match apiKey with
  | None => true
  | Some k => isEmpty k || String.eqb k "YOUR_API_KEY_HERE"
  end.

(** The [try] block of lines 24-96: the value handed to
    [setGeneratedContent], or the message of the exception thrown; and
    whether [fetch] was called. *)
Definition attempt (apiKey : option string) (reply : Reply)
  : (JSValue + string) * bool :=
  if keyMissing apiKey then (inr keyMessage, false)
  else
    match reply with
    | Rejected message => (inr message, true)
    | Failed message =>
        (inr (orElse (match message with Some m => m | None => EmptyString end)
                failureMessage), true)
    | Completed content => (inl (parseModelResponse content), true)
    end.

(** [handleSubmit], lines 12-103: the state once the handler has
    finished, and whether it called [fetch]. *)
Definition handleSubmit (apiKey : option string) (reply : Reply)
    (st : AppState) : AppState * bool :=
  if isEmpty (trim (question st)) || isEmpty (resolutionDate st) then
    (setError (Some validationMessage) st, false)
  else
    let st1 := setGeneratedContent JNull (setError None (setLoading true st)) in
    let (outcome, fetched) := attempt apiKey reply in
    let st2 :=
      match outcome with
      | inl parsedContent => setGeneratedContent parsedContent st1
      | inr message => setError (Some (orElse message genericMessage)) st1
      end in
    (setLoading false st2, fetched).

(** The [disabled] attribute of the submit button, line 185. *)
Definition submitDisabled (st : AppState) : bool :=
  loading st || isEmpty (trim (question st)) || isEmpty (resolutionDate st).

(** The [onClick] handler of the reset button, lines 225-230. *)
Definition reset (st : AppState) : AppState :=
  setError None
    (setResolutionDate EmptyString
       (setQuestion EmptyString (setGeneratedContent JNull st))).

(** ** More vocabulary *)

(** The header test of one call, on a line of the text. *)
Definition notHeader (keywords : list string) (l : string) : bool :=
  negb (isHeader keywords (toLowerCase l)).

(** A line that is neither blank nor a header of the set. *)
Definition plainLine (keywords : list string) (l : string) : bool :=
  notHeader keywords l && negb (blank l).

(** No blank line of [ls] is followed, after any further blank lines,
    by a line of [ls] that holds a colon or a hash sign: nothing inside
    [ls] ends a section. *)
Fixpoint noInnerBoundary (ls : list string) : bool :=
  match ls with
  | [] => true
  | l :: rest =>
      negb (blank l && startsNewSection (nextNonEmpty rest))
      && noInnerBoundary rest
  end.

(** The body of a section as a field: its lines without the headers of
    the set, joined and trimmed, or the sentinel when nothing is left. *)
Definition bodyText (keywords : list string) (s : block) : string :=
  orElse (trim (join nl (filter (notHeader keywords) (body s)))) sentinel.

(** The record whose fields are the bodies of the three sections. *)
Definition bodyRecord (R D E : block) : JSValue :=
  record (bodyText resolutionKeywords R)
         (bodyText descriptionKeywords D)
         (bodyText edgeKeywords E).

(** A resolution section whose body repeats the header of its set. *)
Definition repeatedBlock : block :=
  {| header := "Resolution Criteria:";
     body := ["YES if X happens."; "More criteria: see the rules"; "";
              "NO otherwise."] |}.

(** A unit that a JSON string holds as it is: no quote, no backslash,
    no control character. *)
Definition plainUnit (c : ascii) : bool :=
  negb (Ascii.eqb c (ascii_of_N 34)) && negb (Ascii.eqb c "\")
  && negb (Js.code c <? 32)%N.

Fixpoint plainText (s : string) : bool :=
  match s with
  | EmptyString => true
  | String c s' => plainUnit c && plainText s'
  end.

(** A state a form can be in, for the examples. *)
Definition filledForm : AppState :=
  {| question := "Will X happen?"; resolutionDate := "2030-01-01";
     loading := false; generatedContent := JNull; error := None |}.

(** * Properties *)

(** ** Strings: concatenation, prefixes and occurrences *)

Module StringFacts.

Lemma app_nil_r (s : string) : s ++ "" = s.
Proof. induction s; simpl; congruence. Qed.

Lemma app_assoc (a b c : string) : (a ++ b) ++ c = a ++ b ++ c.
Proof. induction a; simpl; congruence. Qed.

Lemma length_app (a b : string) : length (a ++ b) = length a + length b.
Proof. induction a; simpl; auto. Qed.

Lemma isEmpty_true (s : string) : isEmpty s = true <-> s = "".
Proof. destruct s; simpl; split; congruence. Qed.

Lemma isEmpty_false (s : string) : isEmpty s = false <-> s <> "".
Proof. destruct s; simpl; split; congruence. Qed.

Lemma startsWith_spec (p s : string) :
  startsWith p s = true <-> exists t, s = p ++ t.
Proof.
  revert s; induction p as [|a p IH]; intros s; simpl.
  - split; eauto.
  - destruct s as [|b s].
    + split; [discriminate | intros [t H]; discriminate].
    + rewrite andb_true_iff, Ascii.eqb_eq, IH. split.
      * intros [-> [t ->]]. now exists t.
      * intros [t H]. injection H as -> ->. eauto.
Qed.

Lemma startsWith_app (p t : string) : startsWith p (p ++ t) = true.
Proof. apply startsWith_spec. now exists t. Qed.

(** [includes k s] holds exactly when [k] is a factor of [s]. *)
Lemma includes_spec (k s : string) :
  includes k s = true <-> exists a b, s = a ++ k ++ b.
Proof.
  induction s as [|c s IH]; simpl.
  - rewrite startsWith_spec. split.
    + intros [t H]. exists "", t. exact H.
    + intros [a [b H]]. destruct a; [|discriminate].
      destruct k; [|discriminate]. now exists "".
  - rewrite orb_true_iff, startsWith_spec, IH. split.
    + intros [[t H] | [a [b H]]].
      * exists "", t. exact H.
      * exists (String c a), b. simpl. now rewrite H.
    + intros [a [b H]]. destruct a as [|c' a]; simpl in H.
      * left. now exists b.
      * right. injection H as _ ->. now exists a, b.
Qed.

(** A factor of a factor: occurrences survive in any larger text. *)
Lemma includes_within (k a t b : string) :
  includes k t = true -> includes k (a ++ t ++ b) = true.
Proof.
  rewrite !includes_spec. intros [x [y ->]].
  exists (a ++ x), (y ++ b). now rewrite !app_assoc.
Qed.

Lemma toLowerCase_app (a b : string) :
  toLowerCase (a ++ b) = toLowerCase a ++ toLowerCase b.
Proof. induction a; simpl; congruence. Qed.

Lemma toLowerCase_length (s : string) : length (toLowerCase s) = length s.
Proof. induction s; simpl; congruence. Qed.

End StringFacts.

(** ** Strings: white space and [trim] *)

Module TrimFacts.
Import StringFacts.

Lemma allWhiteSpace_app (a b : string) :
  allWhiteSpace (a ++ b) = allWhiteSpace a && allWhiteSpace b.
Proof. induction a; simpl; auto. now rewrite IHa, andb_assoc. Qed.

Lemma trimEnd_isEmpty (s : string) : isEmpty (trimEnd s) = allWhiteSpace s.
Proof.
  induction s as [|c s IH]; simpl; auto.
  rewrite IH. destruct (isWhiteSpace c), (allWhiteSpace s); reflexivity.
Qed.

Lemma allWhiteSpace_trimStart (s : string) :
  allWhiteSpace (trimStart s) = allWhiteSpace s.
Proof.
  induction s as [|c s IH]; simpl; auto.
  destruct (isWhiteSpace c) eqn:E; simpl; auto. now rewrite E.
Qed.

(** [line.trim() === ''] tests that the line is blank. *)
Lemma trim_isEmpty (s : string) : isEmpty (trim s) = allWhiteSpace s.
Proof. unfold trim. now rewrite trimEnd_isEmpty, allWhiteSpace_trimStart. Qed.


Lemma trimEnd_app_blank (x w : string) :
  allWhiteSpace w = true -> trimEnd (x ++ w) = trimEnd x.
Proof.
  intros Hw. induction x as [|c x IH]; simpl.
  - apply isEmpty_true. now rewrite trimEnd_isEmpty.
  - now rewrite IH.
Qed.

Lemma trimStart_app (x w : string) :
  trimStart (x ++ w) =
  if allWhiteSpace x then trimStart w else trimStart x ++ w.
Proof.
  induction x as [|c x IH]; simpl; auto.
  destruct (isWhiteSpace c); simpl; auto.
Qed.

(** Blank text at the end does not survive [trim]. *)
Lemma trim_app_blank (x w : string) :
  allWhiteSpace w = true -> trim (x ++ w) = trim x.
Proof.
  intros Hw. unfold trim. rewrite trimStart_app.
  destruct (allWhiteSpace x) eqn:Ex.
  - rewrite <- allWhiteSpace_trimStart in Hw, Ex.
    transitivity "".
    + apply isEmpty_true. now rewrite trimEnd_isEmpty.
    + symmetry. apply isEmpty_true. now rewrite trimEnd_isEmpty.
  - now apply trimEnd_app_blank.
Qed.

Lemma trimStart_factor (s : string) : exists a, s = a ++ trimStart s.
Proof.
  induction s as [|c s [a IH]]; simpl.
  - now exists "".
  - destruct (isWhiteSpace c).
    + exists (String c a). simpl. now rewrite <- IH.
    + now exists "".
Qed.

Lemma trimEnd_factor (s : string) : exists b, s = trimEnd s ++ b.
Proof.
  induction s as [|c s [b IH]]; simpl.
  - now exists "".
  - destruct (isWhiteSpace c && isEmpty (trimEnd s)).
    + now exists (String c s).
    + exists b. simpl. now rewrite <- IH.
Qed.

(** [trim] only removes text at the two ends. *)
Lemma trim_factor (s : string) : exists a b, s = a ++ trim s ++ b.
Proof.
  destruct (trimStart_factor s) as [a Ha].
  destruct (trimEnd_factor (trimStart s)) as [b Hb].
  exists a, b. unfold trim. now rewrite <- Hb.
Qed.

Lemma isWhiteSpace_toLowerUnit (c : ascii) :
  isWhiteSpace (toLowerUnit c) = isWhiteSpace c.
Proof. destruct c as [[] [] [] [] [] [] [] []]; vm_compute; reflexivity. Qed.

Lemma allWhiteSpace_toLowerCase (s : string) :
  allWhiteSpace (toLowerCase s) = allWhiteSpace s.
Proof.
  induction s; simpl; auto. now rewrite isWhiteSpace_toLowerUnit, IHs.
Qed.

(** Lower-casing leaves the colon and the hash sign alone, and maps no
    other unit to them. *)
Lemma toLowerUnit_mark (c m : ascii) :
  m = ":"%char \/ m = "#"%char ->
  Ascii.eqb m (toLowerUnit c) = Ascii.eqb m c.
Proof.
  intros [-> | ->]; destruct c as [[] [] [] [] [] [] [] []];
    vm_compute; reflexivity.
Qed.

Lemma includes_mark_toLowerCase (m : ascii) (s : string) :
  m = ":"%char \/ m = "#"%char ->
  includes (String m "") (toLowerCase s) = includes (String m "") s.
Proof.
  intros Hm. induction s as [|c s IH]; simpl; auto.
  rewrite IH, (toLowerUnit_mark _ _ Hm).
  destruct (toLowerCase s), s; reflexivity.
Qed.

(** A text that holds a unit that is not white space is not blank. *)
Lemma includes_not_blank (m : ascii) (s : string) :
  isWhiteSpace m = false -> includes (String m "") s = true ->
  allWhiteSpace s = false.
Proof.
  intros Hm. induction s as [|c s IH]; simpl; [discriminate|].
  destruct (Ascii.eqb_spec m c) as [<- | _].
  - now rewrite Hm.
  - rewrite andb_false_l. simpl. intros H. rewrite (IH H). apply andb_false_r.
Qed.

End TrimFacts.

(** ** [JSON.parse] always answers *)

Module JsonFacts.

Lemma skipWs_length (s : string) : length (skipWs s) <= length s.
Proof.
  induction s as [|c s IH]; simpl; auto. destruct (isJsonWs c); simpl; lia.
Qed.

Lemma parseChars_progress :
  forall n s acc key r,
    length s <= n -> parseChars s acc = Parsed key r -> length r < S (length s).
Proof.
  induction n as [|n IH]; intros s acc key r Hn.
  - destruct s; [discriminate | simpl in Hn; lia].
  - destruct s as [|c s]; [discriminate|]. cbn [parseChars].
    destruct (Ascii.eqb c "034").
    { intros E. injection E as _ <-. simpl. lia. }
    destruct (Ascii.eqb c "\").
    + destruct s as [|e s]; [discriminate|].
      destruct (simpleEscape e).
      * intros E. apply IH in E; simpl in *; lia.
      * destruct (Ascii.eqb e "u"); [|discriminate].
        destruct s as [|h1 [|h2 [|h3 [|h4 s]]]]; try discriminate.
        destruct (hex4 h1 h2 h3 h4); [|discriminate].
        intros E. apply IH in E; simpl in *; lia.
    + destruct (Js.code c <? 32)%N; [discriminate|].
      intros E. apply IH in E; simpl in *; lia.
Qed.

Lemma parseChars_fuel :
  forall n s acc, length s <= n -> parseChars s acc <> OutOfFuel.
Proof.
  induction n as [|n IH]; intros s acc Hn.
  - destruct s; [discriminate | simpl in Hn; lia].
  - destruct s as [|c s]; [discriminate|]. cbn [parseChars].
    destruct (Ascii.eqb c "034"); [discriminate|].
    destruct (Ascii.eqb c "\").
    + destruct s as [|e s]; [discriminate|].
      destruct (simpleEscape e).
      * apply IH; simpl in *; lia.
      * destruct (Ascii.eqb e "u"); [|discriminate].
        destruct s as [|h1 [|h2 [|h3 [|h4 s]]]]; try discriminate.
        destruct (hex4 h1 h2 h3 h4); [|discriminate].
        apply IH; simpl in *; lia.
    + destruct (Js.code c <? 32)%N; [discriminate|].
      apply IH; simpl in *; lia.
Qed.

Lemma digits_length (s : string) :
  length (snd (digits s)) <= length s.
Proof.
  induction s as [|c s IH]; simpl; auto.
  destruct (isDigit c); simpl; auto.
  destruct (digits s); simpl in *; lia.
Qed.

Lemma digits_progress (c : ascii) (s d r : string) :
  isDigit c = true -> digits (String c s) = (d, r) -> length r <= length s.
Proof.
  intros H. simpl. rewrite H. pose proof (digits_length s).
  destruct (digits s); simpl in *. intros [= _ <-]. lia.
Qed.

Lemma parseNumber_fuel (s : string) : parseNumber s <> OutOfFuel.
Proof.
  unfold parseNumber. destruct (numSign s) as [sign s1].
  destruct (numInt s1) as [[i s2]|]; [|discriminate].
  destruct (numFrac s2) as [[f s3]|]; [|discriminate].
  destruct (numExp s3) as [[e s4]|]; discriminate.
Qed.

Lemma numSign_length s sign r : numSign s = (sign, r) -> length r <= length s.
Proof.
  unfold numSign. destruct s as [|c s]; [intros [= _ <-]; auto|].
  destruct (Ascii.eqb c "-"); intros [= _ <-]; simpl; lia.
Qed.

Lemma numInt_progress s i r : numInt s = Some (i, r) -> length r < length s.
Proof.
  unfold numInt. destruct s as [|c s]; [discriminate|].
  destruct (Ascii.eqb c "0"); [intros [= _ <-]; simpl; lia|].
  destruct (isDigit c) eqn:E; [|discriminate].
  intros H. injection H as H. apply (digits_progress c s i r E) in H.
  simpl. lia.
Qed.

Lemma numFrac_length s f r : numFrac s = Some (f, r) -> length r <= length s.
Proof.
  unfold numFrac. destruct s as [|c s]; [intros [= _ <-]; auto|].
  destruct (Ascii.eqb c "."); [|intros [= _ <-]; auto].
  pose proof (digits_length s) as L. destruct (digits s) as [d r'].
  destruct (Js.isEmpty d); [discriminate|]. intros [= _ <-]. simpl in *. lia.
Qed.

Lemma numExp_length s e r : numExp s = Some (e, r) -> length r <= length s.
Proof.
  unfold numExp. destruct s as [|c s]; [intros [= _ <-]; auto|].
  destruct (Ascii.eqb c "e" || Ascii.eqb c "E"); [|intros [= _ <-]; auto].
  assert (H : forall sg s2,
             match s with
             | String x t =>
                 if Ascii.eqb x "+" || Ascii.eqb x "-"
                 then (String x EmptyString, t) else (EmptyString, s)
             | EmptyString => (EmptyString, s)
             end = (sg, s2) -> length s2 <= length s).
  { intros sg s2. destruct s as [|x t]; [intros [= _ <-]; auto|].
    destruct (_ || _); intros [= _ <-]; simpl; lia. }
  destruct (match s with String _ _ => _ | EmptyString => _ end) as [sg s2].
  specialize (H sg s2 eq_refl).
  pose proof (digits_length s2) as L. destruct (digits s2) as [d r'].
  destruct (Js.isEmpty d); [discriminate|]. intros [= _ <-]. simpl in *. lia.
Qed.

Lemma parseNumber_progress (s lit r : string) :
  parseNumber s = Parsed lit r -> length r < length s.
Proof.
  unfold parseNumber. destruct (numSign s) as [sign s1] eqn:E1.
  destruct (numInt s1) as [[i s2]|] eqn:E2; [|discriminate].
  destruct (numFrac s2) as [[f s3]|] eqn:E3; [|discriminate].
  destruct (numExp s3) as [[e s4]|] eqn:E4; [|discriminate].
  intros [= _ <-].
  apply numSign_length in E1. apply numInt_progress in E2.
  apply numFrac_length in E3. apply numExp_length in E4. lia.
Qed.

Lemma expect_length c s r : expect c s = Some r -> length s = S (length r).
Proof.
  unfold expect. destruct s as [|c' s]; [discriminate|].
  destruct (Ascii.eqb c c'); [|discriminate]. now intros [= <-].
Qed.

Lemma stripPrefix_length p s r :
  stripPrefix p s = Some r -> length s = length p + length r.
Proof.
  revert s. induction p as [|a p IH]; intros s; simpl.
  - now intros [= <-].
  - destruct s as [|b s]; [discriminate|].
    destruct (Ascii.eqb a b); [|discriminate].
    intros H. apply IH in H. simpl. lia.
Qed.

Lemma parseLiteral_progress s v r :
  parseLiteral s = Some (v, r) -> length r < length s.
Proof.
  unfold parseLiteral.
  destruct (stripPrefix "true" s) eqn:E1;
    [apply stripPrefix_length in E1; intros [= _ <-]; simpl in *; lia|].
  destruct (stripPrefix "false" s) eqn:E2;
    [apply stripPrefix_length in E2; intros [= _ <-]; simpl in *; lia|].
  destruct (stripPrefix "null" s) eqn:E3;
    [apply stripPrefix_length in E3; intros [= _ <-]; simpl in *; lia|].
  discriminate.
Qed.

(** Every value takes at least one code unit. *)
Lemma parse_progress (fuel : nat) :
  (forall s v r, parseValue fuel s = Parsed v r -> length r < length s)
  /\ (forall s acc v r,
        parseElements fuel s acc = Parsed v r -> length r < length s)
  /\ (forall s acc v r,
        parseMembers fuel s acc = Parsed v r -> length r < length s).
Proof.
  induction fuel as [|fuel (IHv & IHe & IHm)];
    [repeat split; intros; discriminate|].
  repeat split.
  - intros s v r. cbn [parseValue]. destruct s as [|c s]; [discriminate|].
    pose proof (skipWs_length s) as L.
    destruct (Ascii.eqb c "{").
    { destruct (expect "}" (skipWs s)) eqn:E.
      - apply expect_length in E. intros [= _ <-]. simpl. lia.
      - intros H. apply IHm in H. simpl. lia. }
    destruct (Ascii.eqb c "[").
    { destruct (expect "]" (skipWs s)) eqn:E.
      - apply expect_length in E. intros [= _ <-]. simpl. lia.
      - intros H. apply IHe in H. simpl. lia. }
    destruct (Ascii.eqb c "034").
    { destruct (parseChars s []) eqn:E; try discriminate.
      apply (parseChars_progress (length s)) in E; auto.
      intros [= _ <-]. simpl. lia. }
    destruct (parseLiteral (String c s)) as [[v' r']|] eqn:E.
    { apply parseLiteral_progress in E. now intros [= _ <-]. }
    destruct (parseNumber (String c s)) eqn:E'; try discriminate.
    apply parseNumber_progress in E'. now intros [= _ <-].
  - intros s acc v r. cbn [parseElements].
    destruct (parseValue fuel s) as [v' r'| |] eqn:E; try discriminate.
    apply IHv in E. pose proof (skipWs_length r') as L.
    destruct (expect "," (skipWs r')) eqn:E1.
    { apply expect_length in E1. intros H. apply IHe in H.
      pose proof (skipWs_length s0). lia. }
    destruct (expect "]" (skipWs r')) eqn:E2; [|discriminate].
    apply expect_length in E2. intros [= _ <-]. lia.
  - intros s acc v r. cbn [parseMembers].
    destruct (expect "034" s) as [s'|] eqn:E0; [|discriminate].
    apply expect_length in E0.
    destruct (parseChars s' []) as [key r0| |] eqn:E; try discriminate.
    apply (parseChars_progress (length s')) in E; auto.
    pose proof (skipWs_length r0) as L0.
    destruct (expect ":" (skipWs r0)) as [r1|] eqn:E1; [|discriminate].
    apply expect_length in E1. pose proof (skipWs_length r1) as L1.
    destruct (parseValue fuel (skipWs r1)) as [v' r2| |] eqn:E2;
      try discriminate.
    apply IHv in E2. pose proof (skipWs_length r2) as L2.
    destruct (expect "," (skipWs r2)) as [r3|] eqn:E3.
    { apply expect_length in E3. intros H. apply IHm in H.
      pose proof (skipWs_length r3). lia. }
    destruct (expect "}" (skipWs r2)) as [r3|] eqn:E4; [|discriminate].
    apply expect_length in E4. intros [= _ <-]. lia.
Qed.

(** Twice the length of the text and one is enough fuel. *)
Lemma parse_fuel (fuel : nat) :
  (forall s, 2 * length s + 1 <= fuel -> completed (parseValue fuel s) = true)
  /\ (forall s acc, 2 * length s + 2 <= fuel ->
                    completed (parseElements fuel s acc) = true)
  /\ (forall s acc, 2 * length s + 2 <= fuel ->
                    completed (parseMembers fuel s acc) = true).
Proof.
  induction fuel as [|fuel (IHv & IHe & IHm)];
    [repeat split; intros; lia|].
  destruct (parse_progress fuel) as (Pv & Pe & Pm).
  repeat split.
  - intros s Hf. cbn [parseValue]. destruct s as [|c s]; auto.
    pose proof (skipWs_length s) as L. simpl in Hf.
    destruct (Ascii.eqb c "{").
    { destruct (expect "}" (skipWs s)); auto. apply IHm. lia. }
    destruct (Ascii.eqb c "[").
    { destruct (expect "]" (skipWs s)); auto. apply IHe. lia. }
    destruct (Ascii.eqb c "034").
    { pose proof (parseChars_fuel (length s) s [] (le_n _)).
      destruct (parseChars s []); auto. }
    destruct (parseLiteral (String c s)) as [[v' r']|]; auto.
    pose proof (parseNumber_fuel (String c s)).
    destruct (parseNumber (String c s)); auto.
  - intros s acc Hf. cbn [parseElements].
    pose proof (IHv s ltac:(lia)) as Hv.
    destruct (parseValue fuel s) as [v' r'| |] eqn:E; auto.
    apply Pv in E. pose proof (skipWs_length r') as L.
    destruct (expect "," (skipWs r')) eqn:E1.
    { apply expect_length in E1. apply IHe.
      pose proof (skipWs_length s0). lia. }
    destruct (expect "]" (skipWs r')); auto.
  - intros s acc Hf. cbn [parseMembers].
    destruct (expect "034" s) as [s'|] eqn:E0; auto.
    apply expect_length in E0.
    pose proof (parseChars_fuel (length s') s' [] (le_n _)).
    destruct (parseChars s' []) as [key r0| |] eqn:E; auto.
    apply (parseChars_progress (length s')) in E; auto.
    pose proof (skipWs_length r0) as L0.
    destruct (expect ":" (skipWs r0)) as [r1|] eqn:E1; auto.
    apply expect_length in E1. pose proof (skipWs_length r1) as L1.
    pose proof (IHv (skipWs r1) ltac:(lia)) as Hv.
    destruct (parseValue fuel (skipWs r1)) as [v' r2| |] eqn:E2; auto.
    apply Pv in E2. pose proof (skipWs_length r2) as L2.
    destruct (expect "," (skipWs r2)) as [r3|] eqn:E3.
    { apply expect_length in E3. apply IHm.
      pose proof (skipWs_length r3). lia. }
    destruct (expect "}" (skipWs r2)); auto.
Qed.

(** [JSON.parse] never fails for lack of fuel: [None] is a syntax
    error. *)
Lemma parseText_completed (text : string) :
  completed (parseText (enough text) text) = true.
Proof.
  unfold parseText, enough.
  destruct (parse_fuel (2 * length text + 1)) as (Hv & _ & _).
  pose proof (skipWs_length text) as L.
  specialize (Hv (skipWs text) ltac:(lia)).
  destruct (parseValue _ (skipWs text)); auto.
  destruct (skipWs rest); auto.
Qed.

Lemma parse_None (text : string) :
  Json.parse text = None -> parseText (enough text) text = SyntaxError.
Proof.
  unfold Json.parse. pose proof (parseText_completed text) as H.
  destruct (parseText (enough text) text); try discriminate; auto.
Qed.

End JsonFacts.

(** ** The scanning loop *)

Module ScanFacts.
Import StringFacts TrimFacts.

Lemma isHeader_app (k1 k2 : list string) (line : string) :
  isHeader (k1 ++ k2) line = isHeader k1 line || isHeader k2 line.
Proof. unfold isHeader. apply existsb_app. Qed.

(** A header holds a colon or a hash sign, whatever the keywords. *)
Lemma isHeader_hasMark (keywords : list string) (l : string) :
  isHeader keywords (toLowerCase l) = true -> hasMark l = true.
Proof.
  unfold isHeader, hasMark. rewrite existsb_exists.
  intros [k [_ H]]. now apply andb_true_iff in H.
Qed.

Lemma no_mark_no_header (keywords : list string) (l : string) :
  hasMark l = false -> isHeader keywords (toLowerCase l) = false.
Proof.
  intros H. destruct (isHeader keywords (toLowerCase l)) eqn:E; auto.
  apply isHeader_hasMark in E. congruence.
Qed.

Lemma hasMark_not_blank (l : string) : hasMark l = true -> blank l = false.
Proof.
  unfold hasMark, blank. rewrite <- (allWhiteSpace_toLowerCase l).
  intros H. apply orb_true_iff in H as [H | H].
  - now apply (includes_not_blank ":"%char).
  - now apply (includes_not_blank "#"%char).
Qed.

Lemma blank_no_mark (l : string) : blank l = true -> hasMark l = false.
Proof.
  intros H. destruct (hasMark l) eqn:E; auto.
  apply hasMark_not_blank in E. congruence.
Qed.

Lemma blank_no_header (keywords : list string) (l : string) :
  blank l = true -> isHeader keywords (toLowerCase l) = false.
Proof. intros H. now apply no_mark_no_header, blank_no_mark. Qed.

(** The header rule is monotone: a line with a header inside is one. *)
Lemma isHeader_within (keywords : list string) (a x b : string) :
  isHeader keywords (toLowerCase x) = true ->
  isHeader keywords (toLowerCase (a ++ x ++ b)) = true.
Proof.
  unfold isHeader. rewrite !existsb_exists. intros [k [Hk H]].
  exists k. split; auto. rewrite !toLowerCase_app.
  apply andb_true_iff in H as [H1 H2]. apply andb_true_iff. split.
  - now apply includes_within.
  - apply orb_true_iff in H2 as [H2 | H2]; apply orb_true_iff;
      [left | right]; now apply includes_within.
Qed.

Lemma trim_toLowerCase_isEmpty (l : string) :
  isEmpty (trim (toLowerCase l)) = blank l.
Proof. unfold blank. now rewrite trim_isEmpty, allWhiteSpace_toLowerCase. Qed.

(** One turn of the loop, case by case. *)

Lemma scan_header keywords l rest sec b :
  isHeader keywords (toLowerCase l) = true ->
  scan keywords (l :: rest) sec b = scan keywords rest sec true.
Proof. intros H. simpl. now rewrite H. Qed.

Lemma scan_seeking keywords l rest sec :
  isHeader keywords (toLowerCase l) = false ->
  scan keywords (l :: rest) sec false = scan keywords rest sec false.
Proof. intros H. simpl. now rewrite H. Qed.

Lemma scan_collect keywords l rest sec :
  isHeader keywords (toLowerCase l) = false ->
  blank l && Nat.ltb 0 (List.length sec)
    && startsNewSection (nextNonEmpty rest) = false ->
  scan keywords (l :: rest) sec true = scan keywords rest (sec ++ [l]) true.
Proof.
  intros H1 H2. simpl. now rewrite H1, trim_toLowerCase_isEmpty, H2.
Qed.

Lemma scan_break keywords l rest sec :
  blank l = true -> sec <> [] ->
  startsNewSection (nextNonEmpty rest) = true ->
  scan keywords (l :: rest) sec true = sec.
Proof.
  intros H1 H2 H3. simpl.
  rewrite (blank_no_header _ _ H1), trim_toLowerCase_isEmpty, H1, H3.
  destruct sec; [congruence | reflexivity].
Qed.

(** The look-ahead skips a run of blank lines. *)
Lemma nextNonEmpty_blanks (blanks rest : list string) :
  forallb blank blanks = true ->
  nextNonEmpty (blanks ++ rest) = nextNonEmpty rest.
Proof.
  induction blanks as [|b bs IH]; simpl; auto.
  intros H. apply andb_true_iff in H as [Hb Hbs].
  unfold blank in Hb. now rewrite trim_isEmpty, Hb, IH.
Qed.

Lemma nextNonEmpty_cons (l : string) (rest : list string) :
  blank l = false -> nextNonEmpty (l :: rest) = Some l.
Proof. intros H. simpl. unfold blank in H. now rewrite trim_isEmpty, H. Qed.

(** While seeking, lines that are no header of the set are passed over. *)
Lemma scan_skip keywords pre rest :
  forallb (fun l => negb (isHeader keywords (toLowerCase l))) pre = true ->
  scan keywords (pre ++ rest) [] false = scan keywords rest [] false.
Proof.
  induction pre as [|l pre IH]; simpl; auto.
  intros H. apply andb_true_iff in H as [Hl Hpre].
  apply negb_true_iff in Hl. rewrite Hl. auto.
Qed.

(** No line that the set's header rule accepts is ever pushed. *)
Lemma scan_no_header keywords lines :
  forall sec b,
    Forall (fun l => isHeader keywords (toLowerCase l) = false) sec ->
    Forall (fun l => isHeader keywords (toLowerCase l) = false)
      (scan keywords lines sec b).
Proof.
  induction lines as [|l rest IH]; intros sec b Hsec; simpl; auto.
  destruct (isHeader keywords (toLowerCase l)) eqn:E; auto.
  destruct b; auto.
  destruct (_ && _ && _); auto.
  apply IH. apply Forall_app. split; auto.
Qed.

End ScanFacts.

(** ** The fallback record *)

Module RecordFacts.
Import StringFacts TrimFacts ScanFacts.

Lemma units_isEmpty (s : string) :
  isEmpty s = false -> exists u us, units s = u :: us.
Proof. destruct s; [discriminate|]. intros _. unfold units. simpl. eauto. Qed.

Lemma orElse_isEmpty (a b : string) :
  isEmpty b = false -> isEmpty (orElse a b) = false.
Proof. unfold orElse. destruct a; auto. Qed.

Lemma extractSection_isEmpty (lines keywords : list string) :
  isEmpty (extractSection lines keywords) = false.
Proof. unfold extractSection. now apply orElse_isEmpty. Qed.

Lemma record_fullyPopulated (a b c : string) :
  isEmpty a = false -> isEmpty b = false -> isEmpty c = false ->
  fullyPopulated (record a b c) = true.
Proof.
  intros Ha Hb Hc.
  destruct (units_isEmpty a Ha) as [x [xs Ea]].
  destruct (units_isEmpty b Hb) as [y [ys Eb]].
  destruct (units_isEmpty c Hc) as [z [zs Ec]].
  unfold fullyPopulated, record. rewrite Ea, Eb, Ec. reflexivity.
Qed.

Lemma heuristic_fullyPopulated (content : string) :
  fullyPopulated (heuristic content) = true.
Proof.
  unfold heuristic. apply record_fullyPopulated; apply extractSection_isEmpty.
Qed.

Lemma heuristic_hasAllKeys (content : string) :
  hasAllKeys (heuristic content) = true.
Proof. reflexivity. Qed.

(** Without a header of the set, the loop collects nothing. *)
Lemma extractSection_no_header (lines keywords : list string) :
  forallb (fun l => negb (isHeader keywords (toLowerCase l))) lines = true ->
  extractSection lines keywords = sentinel.
Proof.
  intros H. unfold extractSection.
  rewrite <- (List.app_nil_r lines), (scan_skip _ _ _ H). reflexivity.
Qed.

Lemma forallb_weaken {A : Type} (p q : A -> bool) (l : list A) :
  (forall x, p x = true -> q x = true) ->
  forallb p l = true -> forallb q l = true.
Proof.
  intros Hpq. rewrite !forallb_forall. auto.
Qed.

End RecordFacts.

(** ** The scenarios of the specification on the code *)

Example scenario_C :
  parseModelResponse scenarioC
  = record "Market resolves YES if X happens." "This market tracks X."
      "Ambiguous if Y.".
Proof. reflexivity. Qed.

Example scenario_D :
  extractSection ["Description:"; "first"; ""; "second"] descriptionKeywords
  = join nl ["first"; ""; "second"].
Proof. reflexivity. Qed.

Example parse_unfenced_record :
  parseModelResponse (" " ++ recordText "X" "Y" "Z" ++ nl)
  = record "X" "Y" "Z".
Proof. reflexivity. Qed.

Example parse_duplicate_key :
  option_map (fun v => get v "a")
    (Json.parse ("{" ++ quoted "a" ++ ":1, " ++ quoted "a" ++ ":[true,null]}"))
  = Some (Some (JArray [JBool true; JNull])).
Proof. reflexivity. Qed.

Example parse_rejects :
  List.map Json.parse ["01"; "1."; "[1,]"; "{a:1}"; "tru"; ""; "1 2"]
  = [None; None; None; None; None; None; None].
Proof. reflexivity. Qed.

(** ** The claims on the composed parser and on a single field *)

Import StringFacts TrimFacts ScanFacts RecordFacts.

(** C1, as the code has it.  For every response text the [try]/[catch]
    of lines 78-94 yields a value and never an exception.  When
    [JSON.parse] returns, that value is the decoded value itself, of any
    shape; when [JSON.parse] throws, it is the fallback record, whose
    three properties are all present and hold non-empty strings. *)
Theorem parseModelResponse_total (content : string) :
  match tryParse content with
  | Some decoded => parseModelResponse content = decoded
  | None =>
      parseModelResponse content = heuristic content
      /\ fullyPopulated (parseModelResponse content) = true
  end.
Proof.
  unfold parseModelResponse. destruct (tryParse content); auto.
  split; auto. apply heuristic_fullyPopulated.
Qed.

(** C1 as stated fails: the text [{}] is valid JSON, so the decoded
    empty object is returned and none of the three properties exists. *)
Lemma empty_object_has_no_field :
  parseModelResponse "{}" = JObject []
  /\ get (parseModelResponse "{}") "resolutionCriteria" = None
  /\ get (parseModelResponse "{}") "description" = None
  /\ get (parseModelResponse "{}") "edgeCases" = None.
Proof. repeat split. Qed.

(** C2, as the code has it.  When the strict path decodes a value that
    is not a mapping with the three keys, nothing rejects it: the value
    is the result, and the heuristic splitter is not consulted (its
    record always has the three keys). *)
Theorem decoded_value_not_validated (content : string) (decoded : JSValue) :
  tryParse content = Some decoded ->
  hasAllKeys decoded = false ->
  parseModelResponse content = decoded
  /\ parseModelResponse content <> heuristic content.
Proof.
  intros Hp Hk. unfold parseModelResponse. rewrite Hp. split; auto.
  intros E. rewrite E, heuristic_hasAllKeys in Hk. discriminate.
Qed.

Lemma decoded_value_not_validated_witness :
  parseModelResponse "[]" = JArray []
  /\ parseModelResponse "[]" <> heuristic "[]".
Proof.
  apply (decoded_value_not_validated "[]" (JArray [])); reflexivity.
Defined.

(** C7.  When the strict path fails and no line satisfies the header
    rule of any of the three keyword sets, the three fields are the
    sentinel. *)
Theorem no_header_all_sentinel (content : string) :
  tryParse content = None ->
  noHeader allKeywords (split content) = true ->
  parseModelResponse content = record sentinel sentinel sentinel.
Proof.
  intros Hp Hl. unfold parseModelResponse. rewrite Hp. unfold heuristic.
  unfold noHeader, allKeywords in Hl.
  rewrite !extractSection_no_header; auto;
    revert Hl; apply forallb_weaken; intros l;
    rewrite !isHeader_app, !negb_orb, !andb_true_iff; tauto.
Qed.

Lemma no_header_all_sentinel_witness :
  parseModelResponse "The market resolves YES if X happens."
  = record sentinel sentinel sentinel.
Proof.
  apply (no_header_all_sentinel "The market resolves YES if X happens.");
    reflexivity.
Defined.


(** C2 as stated fails: an array, and an object without [edgeCases],
    are valid JSON; each is returned as decoded, although the splitter
    would have produced three sentinels on the same text. *)
Lemma valid_json_is_returned_as_decoded :
  (tryParse "[1]" = Some (JArray [JNumber "1"])
   /\ parseModelResponse "[1]" = JArray [JNumber "1"]
   /\ heuristic "[1]" = record sentinel sentinel sentinel)
  /\ (parseModelResponse twoKeyObject
       = JObject [ (units "resolutionCriteria", JString (units "r"));
                   (units "description", JString (units "d")) ]
      /\ get (parseModelResponse twoKeyObject) "edgeCases" = None
      /\ heuristic twoKeyObject = record sentinel sentinel sentinel).
Proof. repeat split. Qed.

(** ** The blank-line look-ahead and adjacent headers *)

Lemma scan_blank_run_kept keywords l rest :
  blank l = false -> hasMark l = false ->
  forall blanks sec,
    forallb blank blanks = true ->
    scan keywords (blanks ++ l :: rest) sec true
    = scan keywords rest (sec ++ blanks ++ [l]) true.
Proof.
  intros Hl Hm. induction blanks as [|b bs IH]; intros sec Hb.
  - simpl app. apply scan_collect.
    + now apply no_mark_no_header.
    + now rewrite Hl.
  - simpl in Hb. apply andb_true_iff in Hb as [Hb Hbs].
    change ((b :: bs) ++ l :: rest)%list with (b :: (bs ++ l :: rest))%list.
    rewrite scan_collect.
    + rewrite IH by assumption. now rewrite <- List.app_assoc.
    + now apply blank_no_header.
    + rewrite (nextNonEmpty_blanks _ _ Hbs), (nextNonEmpty_cons _ _ Hl).
      simpl. rewrite Hm. apply andb_false_r.
Qed.

(** C5, as the code has it.  Inside a section that has collected at
    least one line, a run of blank lines followed by a non-blank line
    ends the section exactly when that line holds a colon or a hash
    sign, keyword or not; otherwise the blank lines and the line are
    pushed and the loop goes on collecting. *)
Theorem blank_run_lookahead (keywords sec : list string) (b : string)
    (blanks : list string) (l : string) (rest : list string) :
  sec <> [] ->
  forallb blank (b :: blanks) = true ->
  blank l = false ->
  scan keywords (b :: blanks ++ l :: rest) sec true
  = if hasMark l then sec
    else scan keywords rest (sec ++ (b :: blanks) ++ [l]) true.
Proof.
  intros Hsec Hb Hl. destruct (hasMark l) eqn:Hm.
  - simpl in Hb. apply andb_true_iff in Hb as [Hb Hbs].
    apply scan_break; auto.
    now rewrite (nextNonEmpty_blanks _ _ Hbs), (nextNonEmpty_cons _ _ Hl).
  - now apply (scan_blank_run_kept keywords l rest Hl Hm (b :: blanks) sec).
Qed.

Lemma blank_run_lookahead_witness :
  scan descriptionKeywords ["" ; " "; "more prose"; "last"] ["foo"] true
  = scan descriptionKeywords ["last"] ["foo"; ""; " "; "more prose"] true.
Proof.
  apply (blank_run_lookahead descriptionKeywords ["foo"] "" [" "]
           "more prose" ["last"]); [discriminate | reflexivity | reflexivity].
Defined.

(** C5 as stated fails: [Note: bar] satisfies the header rule of no
    keyword set and is not blank, yet the blank line before it ends the
    description, which is [foo] alone. *)
Lemma colon_line_ends_section :
  isHeader allKeywords (toLowerCase "Note: bar") = false
  /\ blank "Note: bar" = false
  /\ scan descriptionKeywords [""; "Note: bar"] ["foo"] true = ["foo"]
  /\ scan descriptionKeywords [""; "Note: bar"] ["foo"] true
     <> scan descriptionKeywords [] ["foo"; ""; "Note: bar"] true
  /\ extractSection (split noteText) descriptionKeywords = "foo".
Proof. repeat split. discriminate. Qed.

(** Lines that are neither blank nor headers of the set are all pushed. *)
Lemma scan_plain keywords (ls : list string) :
  noHeader keywords ls = true ->
  forallb (fun l => negb (blank l)) ls = true ->
  forall sec, scan keywords ls sec true = (sec ++ ls)%list.
Proof.
  induction ls as [|l ls IH]; intros Hh Hb sec.
  - now rewrite List.app_nil_r.
  - simpl in Hh, Hb. apply andb_true_iff in Hh as [Hl Hh].
    apply andb_true_iff in Hb as [Hbl Hb].
    apply negb_true_iff in Hl, Hbl.
    rewrite scan_collect; auto.
    + rewrite IH by assumption. now rewrite <- List.app_assoc.
    + now rewrite Hbl.
Qed.

(** C6, as the code has it.  While the section of one keyword set is
    collected, a line that is a header of another set only (and so not
    of the set being collected) is pushed like any other line, and the
    loop goes on collecting after it; when no blank line and no header
    of the collected set follows, it and all the lines after it end up
    in the section. *)
Theorem other_header_is_collected (keywords others : list string)
    (h : string) (rest sec : list string) :
  isHeader others (toLowerCase h) = true ->
  isHeader keywords (toLowerCase h) = false ->
  scan keywords (h :: rest) sec true = scan keywords rest (sec ++ [h]) true
  /\ (noHeader keywords rest = true ->
      forallb (fun l => negb (blank l)) rest = true ->
      scan keywords (h :: rest) sec true = (sec ++ h :: rest)%list).
Proof.
  intros Ho Hk.
  assert (E : scan keywords (h :: rest) sec true
              = scan keywords rest (sec ++ [h]) true).
  { apply scan_collect; auto.
    apply isHeader_hasMark, hasMark_not_blank in Ho. now rewrite Ho. }
  split; auto.
  intros Hh Hb. rewrite E, scan_plain by assumption.
  now rewrite <- List.app_assoc.
Qed.

Lemma other_header_is_collected_witness :
  scan resolutionKeywords ["Description:"; "B"] ["A"] true
  = scan resolutionKeywords ["B"] ["A"; "Description:"] true
  /\ scan resolutionKeywords ["Description:"; "B"] ["A"] true
     = ["A"; "Description:"; "B"].
Proof.
  destruct (other_header_is_collected resolutionKeywords descriptionKeywords
              "Description:" ["B"] ["A"] eq_refl eq_refl) as [H1 H2].
  split; [exact H1 | apply H2; reflexivity].
Defined.

(** C6 as stated fails: [Description:] is a header of the description
    set met while the resolution section is collected, and the
    resolution field runs on through it to the end of the text. *)
Lemma adjacent_header_not_a_boundary :
  isHeader descriptionKeywords (toLowerCase "Description:") = true
  /\ isHeader resolutionKeywords (toLowerCase "Description:") = false
  /\ split adjacentText = ["Resolution Criteria:"; "A"; "Description:"; "B"]
  /\ extractSection (split adjacentText) resolutionKeywords
     = join nl ["A"; "Description:"; "B"].
Proof. repeat split. Qed.

(** ** Lines of a text *)

Module LineFacts.
Import StringFacts.

Lemma includes_nl_cons (c : ascii) (s : string) :
  includes nl (String c s) = Ascii.eqb newline c || includes nl s.
Proof. simpl. now rewrite andb_true_r. Qed.

(** The first element of [split s] is the text before the first
    newline. *)
Lemma split_head (s : string) :
  exists l ls b, split s = l :: ls /\ s = l ++ b /\ includes nl l = false.
Proof.
  induction s as [|c s (l & ls & b & Hs & Hb & Hl)].
  - exists "", [], "". auto.
  - simpl. destruct (Ascii.eqb c newline) eqn:E.
    + exists "", (split s), (String c s). auto.
    + rewrite Hs. exists (String c l), ls, b. repeat split.
      * simpl. now rewrite <- Hb.
      * rewrite includes_nl_cons, Hl, Ascii.eqb_sym, E. reflexivity.
Qed.

(** Every element of [split s] is a factor of [s] without newline. *)
Lemma split_factor (s x : string) :
  In x (split s) ->
  includes nl x = false /\ exists a b, s = a ++ x ++ b.
Proof.
  induction s as [|c s IH]; simpl.
  - intros [<- | []]. split; auto. now exists "", "".
  - destruct (Ascii.eqb c newline) eqn:E.
    + intros [<- | H].
      * split; auto. exists "", (String c s). reflexivity.
      * destruct (IH H) as [Hx (a & b & Hs)]. split; auto.
        exists (String c a), b. simpl. now rewrite <- Hs.
    + destruct (split_head s) as (l & ls & b & Hs & Hb & Hl).
      rewrite Hs in *. intros [<- | H].
      * split.
        -- rewrite includes_nl_cons, Hl, Ascii.eqb_sym, E. reflexivity.
        -- exists "", b. simpl. now rewrite <- Hb.
      * destruct (IH (or_intror H)) as [Hx (a & b' & Hs')]. split; auto.
        exists (String c a), b'. simpl. now rewrite <- Hs'.
Qed.

Lemma prefix_before_newline (x b l r : string) :
  x ++ b = l ++ String newline r -> includes nl x = false ->
  exists b', l = x ++ b'.
Proof.
  revert l. induction x as [|c x IH]; intros l H Hx.
  - now exists l.
  - rewrite includes_nl_cons in Hx. apply orb_false_iff in Hx as [Hc Hx].
    destruct l as [|c' l]; simpl in H; injection H as -> H.
    + now rewrite Ascii.eqb_refl in Hc.
    + destruct (IH l H Hx) as [b' ->]. now exists b'.
Qed.

(** A factor without newline lies on one side of a newline. *)
Lemma factor_across_newline (a x b l r : string) :
  a ++ x ++ b = l ++ String newline r -> includes nl x = false ->
  (exists a' b', l = a' ++ x ++ b') \/ (exists a' b', r = a' ++ x ++ b').
Proof.
  revert l. induction a as [|c a IH]; intros l H Hx.
  - left. destruct (prefix_before_newline x b l r H Hx) as [b' ->].
    now exists "", b'.
  - destruct l as [|c' l]; simpl in H; injection H as -> H.
    + right. now exists a, b.
    + destruct (IH l H Hx) as [(a' & b' & ->) | R]; auto.
      left. now exists (String c' a'), b'.
Qed.

(** A factor without newline of joined lines lies inside one of them. *)
Lemma join_factor (ls : list string) (a x b : string) :
  join nl ls = a ++ x ++ b -> includes nl x = false ->
  x = "" \/ exists l a' b', In l ls /\ l = a' ++ x ++ b'.
Proof.
  revert a b. induction ls as [|l ls IH]; intros a b H Hx.
  - left. destruct a; [|discriminate]. destruct x; [auto | discriminate].
  - destruct ls as [|l2 ls].
    + right. exists l, a, b. simpl in *. auto.
    + change (join nl (l :: l2 :: ls))
        with (l ++ String newline (join nl (l2 :: ls))) in H.
      symmetry in H.
      destruct (factor_across_newline _ _ _ _ _ H Hx)
        as [(a' & b' & E) | (a' & b' & E)].
      * right. exists l, a', b'. simpl. auto.
      * destruct (IH a' b' E Hx) as [-> | (l' & a'' & b'' & Hin & E')]; auto.
        right. exists l', a'', b''. split; auto. now right.
Qed.

End LineFacts.

Import LineFacts.

(** C9.  For every text and every keyword set, no line of the field
    the splitter produces for that set satisfies the set's own header
    rule. *)
Theorem field_has_no_own_header (content : string) (keywords : list string) :
  forallb (fun x => negb (isHeader keywords (toLowerCase x)))
    (split (extractSection (split content) keywords)) = true.
Proof.
  apply forallb_forall. intros x Hx. apply negb_true_iff.
  destruct (isHeader keywords (toLowerCase x)) eqn:E; auto. exfalso.
  unfold extractSection, orElse in Hx.
  set (sec := scan keywords (split content) [] false) in *.
  destruct (isEmpty (trim (join nl sec))) eqn:Ej.
  - destruct Hx as [<- | []]. apply isHeader_hasMark in E. discriminate.
  - destruct (split_factor _ _ Hx) as [Hnl (a & b & Hab)].
    destruct (trim_factor (join nl sec)) as (a0 & b0 & Hj).
    rewrite Hab, !StringFacts.app_assoc, <- StringFacts.app_assoc in Hj.
    destruct (join_factor _ _ _ _ Hj Hnl) as [-> | (l & a' & b' & Hin & ->)].
    + apply isHeader_hasMark in E. discriminate.
    + pose proof (scan_no_header keywords (split content) [] false
                    (Forall_nil _)) as Hsec.
      rewrite Forall_forall in Hsec. specialize (Hsec _ Hin).
      rewrite (isHeader_within _ _ _ _ E) in Hsec. discriminate.
Qed.

(** ** Sections in any order *)

Module OrderFacts.
Import StringFacts TrimFacts ScanFacts.

Lemma nextNonEmpty_app (a b : list string) :
  nextNonEmpty (a ++ b) =
  match nextNonEmpty a with
  | Some m => Some m
  | None => nextNonEmpty b
  end.
Proof.
  induction a as [|l a IH]; simpl; auto.
  destruct (isEmpty (trim l)); auto.
Qed.

Lemma nextNonEmpty_None (a : list string) :
  nextNonEmpty a = None -> forallb blank a = true.
Proof.
  induction a as [|l a IH]; simpl; auto.
  unfold blank. rewrite trim_isEmpty.
  destruct (allWhiteSpace l); [auto | discriminate].
Qed.

Lemma nextNonEmpty_all_blank (a : list string) :
  forallb blank a = true -> nextNonEmpty a = None.
Proof.
  intros H. rewrite <- (List.app_nil_r a). now rewrite nextNonEmpty_blanks.
Qed.

(** Blank lines up to the end of the text are all pushed. *)
Lemma scan_all_blank keywords (ls : list string) :
  forallb blank ls = true ->
  forall sec, scan keywords ls sec true = (sec ++ ls)%list.
Proof.
  induction ls as [|l ls IH]; intros H sec.
  - now rewrite List.app_nil_r.
  - simpl in H. apply andb_true_iff in H as [Hl Hls].
    rewrite scan_collect.
    + rewrite (IH Hls). now rewrite <- List.app_assoc.
    + now apply blank_no_header.
    + rewrite (nextNonEmpty_all_blank _ Hls). apply andb_false_r.
Qed.

Lemma join_cons (l : string) (ls : list string) :
  ls <> [] -> join nl (l :: ls) = l ++ nl ++ join nl ls.
Proof. destruct ls; [congruence | reflexivity]. Qed.

Lemma join_app (a b : list string) :
  a <> [] -> b <> [] ->
  join nl (a ++ b) = join nl a ++ nl ++ join nl b.
Proof.
  intros Ha Hb. induction a as [|x a IH]; [congruence|].
  destruct a as [|y a].
  - simpl app. now rewrite join_cons.
  - change ((x :: y :: a) ++ b)%list with (x :: ((y :: a) ++ b))%list.
    rewrite join_cons by (simpl; discriminate). rewrite IH by discriminate.
    rewrite (join_cons x (y :: a)) by discriminate. now rewrite !app_assoc.
Qed.

Lemma join_blank (ls : list string) :
  forallb blank ls = true -> allWhiteSpace (join nl ls) = true.
Proof.
  induction ls as [|l ls IH]; auto.
  simpl forallb. intros H. apply andb_true_iff in H as [Hl Hls].
  destruct ls as [|l2 ls]; auto.
  rewrite join_cons by discriminate.
  rewrite !allWhiteSpace_app, (IH Hls). unfold blank in Hl. now rewrite Hl.
Qed.

(** Blank lines at the end of a section are trimmed away. *)
Lemma trim_join_blank (sec bl : list string) :
  sec <> [] -> forallb blank bl = true ->
  trim (join nl (sec ++ bl)) = trim (join nl sec).
Proof.
  intros Hs Hb. destruct bl as [|b bl].
  - now rewrite List.app_nil_r.
  - rewrite join_app by (auto; discriminate).
    apply trim_app_blank. rewrite allWhiteSpace_app.
    now rewrite (join_blank _ Hb).
Qed.

Lemma not_nil_app (sec : list string) (l : string) : (sec ++ [l])%list <> [].
Proof. destruct sec; discriminate. Qed.

Lemma ltb_length (sec : list string) :
  Nat.ltb 0 (List.length sec) = true <-> sec <> [].
Proof.
  destruct sec; unfold Nat.ltb; simpl; split; intros H;
    try discriminate; try reflexivity; now try elim H.
Qed.

(** The lines after a section do not change what is collected from its
    body, up to the blank lines that [trim] removes. *)
Lemma scan_body_context keywords (post : list string) :
  boundary post = true ->
  forall ls sec,
    sec <> [] \/ collects keywords ls = true ->
    trim (join nl (scan keywords (ls ++ post) sec true))
    = trim (join nl (scan keywords ls sec true)).
Proof.
  intros Hpost. induction ls as [|l ls IH]; intros sec Hne.
  - destruct Hne as [Hne | Hne]; [|discriminate]. simpl app.
    destruct post as [|b rest]; auto.
    simpl in Hpost. apply andb_true_iff in Hpost as [Hb1 Hb2].
    now rewrite scan_break.
  - change ((l :: ls) ++ post)%list with (l :: (ls ++ post))%list.
    destruct (isHeader keywords (toLowerCase l)) eqn:Hl.
    { (* a header of the set inside the section is passed over *)
      rewrite !(scan_header _ _ _ _ _ Hl). apply IH.
      destruct Hne as [Hne | Hne]; auto. right.
      unfold collects in Hne. simpl in Hne. now rewrite Hl in Hne. }
    destruct (blank l && Nat.ltb 0 (List.length sec)) eqn:Ebl.
    + apply andb_true_iff in Ebl as [Hbl Hsec].
      apply ltb_length in Hsec.
      destruct (nextNonEmpty ls) as [m|] eqn:Enext.
      * (* the look-ahead stays inside the section *)
        simpl. rewrite Hl, trim_toLowerCase_isEmpty, Hbl.
        rewrite nextNonEmpty_app, Enext.
        destruct (_ && _); auto. apply IH; auto. left. apply not_nil_app.
      * (* only blank lines are left in the section *)
        apply nextNonEmpty_None in Enext.
        rewrite (scan_collect keywords l ls); auto.
        2:{ rewrite (nextNonEmpty_all_blank _ Enext). apply andb_false_r. }
        rewrite (scan_all_blank _ _ Enext), <- List.app_assoc.
        rewrite trim_join_blank; auto.
        2:{ simpl. now rewrite Hbl. }
        destruct post as [|b rest].
        -- rewrite List.app_nil_r, scan_collect; auto.
           ++ rewrite (scan_all_blank _ _ Enext), <- List.app_assoc.
              rewrite trim_join_blank; auto. simpl. now rewrite Hbl.
           ++ rewrite (nextNonEmpty_all_blank _ Enext). apply andb_false_r.
        -- simpl in Hpost. apply andb_true_iff in Hpost as [Hb1 Hb2].
           rewrite scan_break; auto.
           rewrite nextNonEmpty_blanks; auto.
           simpl. unfold blank in Hb1. now rewrite trim_isEmpty, Hb1.
    + rewrite !scan_collect; auto.
      * apply IH; auto. left. apply not_nil_app.
      * now rewrite Ebl.
      * now rewrite Ebl.
Qed.

(** A section gives the same field alone and between other lines that
    hold no header of its keyword set. *)
Lemma extract_section keywords (pre : list string) (s : block)
    (post : list string) :
  noHeader keywords pre = true ->
  isHeader keywords (toLowerCase (header s)) = true ->
  collects keywords (body s) = true ->
  boundary post = true ->
  extractSection (pre ++ blockLines s ++ post) keywords
  = extractSection (blockLines s) keywords.
Proof.
  intros Hpre Hh Hc Hpost.
  unfold extractSection, blockLines.
  rewrite (scan_skip _ _ _ Hpre).
  change ((header s :: body s) ++ post)%list
    with (header s :: (body s ++ post))%list.
  rewrite !(scan_header _ _ _ _ _ Hh).
  rewrite (scan_body_context keywords post Hpost); auto.
Qed.

Lemma extract_own keywords (pre : list string) (s : block)
    (post : list string) :
  noHeader keywords pre = true ->
  ownSection keywords s = true ->
  boundary post = true ->
  extractSection (pre ++ blockLines s ++ post) keywords
  = extractSection (blockLines s) keywords.
Proof.
  intros Hpre Hown Hpost. unfold ownSection in Hown.
  apply andb_true_iff in Hown as [Hown Hbody].
  apply andb_true_iff in Hown as [Hh Hne].
  apply extract_section; auto.
  unfold collects. destruct (body s) as [|l ls]; [discriminate|].
  simpl in *. apply andb_true_iff in Hbody as [Hl _]. now rewrite Hl.
Qed.

Lemma boundary_sep (sep : list string) (h : string) (more : list string) :
  sep <> [] -> forallb blank sep = true -> hasMark h = true ->
  boundary (sep ++ h :: more) = true.
Proof.
  intros Hne Hb Hm. destruct sep as [|b bs]; [congruence|].
  simpl in *. apply andb_true_iff in Hb as [Hb Hbs]. rewrite Hb.
  rewrite (nextNonEmpty_blanks _ _ Hbs).
  now rewrite (nextNonEmpty_cons _ _ (hasMark_not_blank _ Hm)).
Qed.

Lemma noHeader_app keywords (a b : list string) :
  noHeader keywords (a ++ b) = noHeader keywords a && noHeader keywords b.
Proof. apply forallb_app. Qed.

Lemma noHeader_blank keywords (sep : list string) :
  forallb blank sep = true -> noHeader keywords sep = true.
Proof.
  apply RecordFacts.forallb_weaken. intros l H.
  now rewrite (blank_no_header _ _ H).
Qed.

(** The field of a keyword set when its section comes first, second or
    third among three sections parted by blank lines. *)

Lemma extract_first keywords (s1 s2 s3 : block) (sep1 sep2 : list string) :
  sep1 <> [] -> forallb blank sep1 = true -> hasMark (header s2) = true ->
  isHeader keywords (toLowerCase (header s1)) = true ->
  collects keywords (body s1) = true ->
  extractSection
    (blockLines s1 ++ sep1 ++ blockLines s2 ++ sep2 ++ blockLines s3)
    keywords
  = extractSection (blockLines s1) keywords.
Proof.
  intros Hne Hb Hm Hh Hc.
  apply (extract_section keywords [] s1); auto.
  now apply boundary_sep.
Qed.

Lemma extract_second keywords (s1 s2 s3 : block) (sep1 sep2 : list string) :
  forallb blank sep1 = true ->
  sep2 <> [] -> forallb blank sep2 = true -> hasMark (header s3) = true ->
  noHeader keywords (blockLines s1) = true ->
  isHeader keywords (toLowerCase (header s2)) = true ->
  collects keywords (body s2) = true ->
  extractSection
    (blockLines s1 ++ sep1 ++ blockLines s2 ++ sep2 ++ blockLines s3)
    keywords
  = extractSection (blockLines s2) keywords.
Proof.
  intros Hb1 Hne Hb2 Hm H1 Hh Hc.
  rewrite (List.app_assoc (blockLines s1) sep1).
  apply extract_section; auto.
  - now rewrite noHeader_app, H1, noHeader_blank.
  - now apply boundary_sep.
Qed.

Lemma extract_third keywords (s1 s2 s3 : block) (sep1 sep2 : list string) :
  forallb blank sep1 = true -> forallb blank sep2 = true ->
  noHeader keywords (blockLines s1) = true ->
  noHeader keywords (blockLines s2) = true ->
  isHeader keywords (toLowerCase (header s3)) = true ->
  collects keywords (body s3) = true ->
  extractSection
    (blockLines s1 ++ sep1 ++ blockLines s2 ++ sep2 ++ blockLines s3)
    keywords
  = extractSection (blockLines s3) keywords.
Proof.
  intros Hb1 Hb2 H1 H2 Hh Hc.
  replace (blockLines s1 ++ sep1 ++ blockLines s2 ++ sep2 ++ blockLines s3)%list
    with ((blockLines s1 ++ sep1 ++ blockLines s2 ++ sep2)
            ++ blockLines s3 ++ [])%list
    by (now rewrite List.app_nil_r, <- !List.app_assoc).
  apply extract_section; auto.
  now rewrite !noHeader_app, H1, H2, !noHeader_blank.
Qed.

(** What a well-formed section grants. *)

Lemma wellFormed_mark own others (s : block) :
  wellFormed own others s = true -> hasMark (header s) = true.
Proof.
  unfold wellFormed. rewrite !andb_true_iff.
  intros [[[[_ H] _] _] _]. now apply isHeader_hasMark in H.
Qed.

Lemma wellFormed_own own others (s : block) :
  wellFormed own others s = true ->
  isHeader own (toLowerCase (header s)) = true
  /\ collects own (body s) = true.
Proof.
  unfold wellFormed. rewrite !andb_true_iff. tauto.
Qed.

(** The lines of a section hold no header of a set whose headers are
    headers of the other sets. *)
Lemma wellFormed_foreign keywords own others (s : block) :
  (forall line, isHeader keywords line = true -> isHeader others line = true) ->
  wellFormed own others s = true -> noHeader keywords (blockLines s) = true.
Proof.
  intros Hsub. unfold wellFormed, noHeader, blockLines.
  rewrite !andb_true_iff. intros [[[[_ _] H1] _] H3]. simpl.
  apply andb_true_iff. split.
  - apply negb_true_iff in H1. apply negb_true_iff.
    destruct (isHeader keywords (toLowerCase (header s))) eqn:E; auto.
    apply Hsub in E. congruence.
  - revert H3. apply RecordFacts.forallb_weaken. intros l H.
    apply andb_true_iff in H as [_ H]. apply negb_true_iff in H.
    apply negb_true_iff.
    destruct (isHeader keywords (toLowerCase l)) eqn:E; auto.
    apply Hsub in E. congruence.
Qed.

Lemma wellFormed_lines own others (s : block) :
  wellFormed own others s = true -> forallb isLine (blockLines s) = true.
Proof.
  unfold wellFormed, blockLines. rewrite !andb_true_iff.
  intros [[[[H0 _] _] _] H3]. simpl. rewrite H0. simpl.
  revert H3. apply RecordFacts.forallb_weaken. intros l H.
  now apply andb_true_iff in H as [H _].
Qed.

(** Without a boundary inside them, the lines of a body are all
    pushed, the headers of the set apart. *)
Lemma scan_unbroken keywords (ls : list string) :
  noInnerBoundary ls = true ->
  forall sec,
    scan keywords ls sec true = (sec ++ filter (notHeader keywords) ls)%list.
Proof.
  induction ls as [|l ls IH]; intros H sec.
  - simpl. now rewrite List.app_nil_r.
  - simpl in H. apply andb_true_iff in H as [Hl Hls].
    apply negb_true_iff in Hl. cbn [filter]. unfold notHeader at 1.
    destruct (isHeader keywords (toLowerCase l)) eqn:E.
    + rewrite (scan_header _ _ _ _ _ E). now apply IH.
    + rewrite scan_collect; auto.
      * rewrite (IH Hls). cbn [negb]. now rewrite <- List.app_assoc.
      * rewrite <- andb_assoc, (andb_comm (Nat.ltb _ _)), andb_assoc, Hl.
        reflexivity.
Qed.

Lemma extractSection_unbroken keywords (s : block) :
  isHeader keywords (toLowerCase (header s)) = true ->
  noInnerBoundary (body s) = true ->
  extractSection (blockLines s) keywords = bodyText keywords s.
Proof.
  intros Hh Hb. unfold extractSection, blockLines, bodyText.
  now rewrite (scan_header _ _ _ _ _ Hh), (scan_unbroken _ _ Hb).
Qed.

Lemma separator_spec (sep : list string) :
  separator sep = true ->
  sep <> [] /\ forallb blank sep = true /\ forallb isLine sep = true.
Proof.
  unfold separator. rewrite andb_true_iff. intros [H1 H2]. repeat split.
  - intros ->. discriminate.
  - revert H2. apply RecordFacts.forallb_weaken. intros l H.
    now apply andb_true_iff in H.
  - revert H2. apply RecordFacts.forallb_weaken. intros l H.
    now apply andb_true_iff in H.
Qed.

(** [split] undoes [join] on lines. *)

Lemma split_line (l : string) : isLine l = true -> split l = [l].
Proof.
  unfold isLine. induction l as [|c l IH]; auto.
  rewrite LineFacts.includes_nl_cons, negb_orb, andb_true_iff.
  intros [Hc Hl]. simpl. rewrite Ascii.eqb_sym.
  apply negb_true_iff in Hc. rewrite Hc. now rewrite (IH Hl).
Qed.

Lemma split_app_newline (l r : string) :
  isLine l = true -> split (l ++ String newline r) = l :: split r.
Proof.
  unfold isLine. induction l as [|c l IH].
  - intros _. reflexivity.
  - rewrite LineFacts.includes_nl_cons, negb_orb, andb_true_iff.
    intros [Hc Hl]. simpl. rewrite Ascii.eqb_sym.
    apply negb_true_iff in Hc. rewrite Hc. now rewrite (IH Hl).
Qed.

Lemma split_join (lines : list string) :
  lines <> [] -> forallb isLine lines = true ->
  split (join nl lines) = lines.
Proof.
  induction lines as [|l ls IH]; [congruence|]. intros _ H.
  simpl in H. apply andb_true_iff in H as [Hl Hls].
  destruct ls as [|l2 ls].
  - now apply split_line.
  - rewrite join_cons by discriminate.
    change (l ++ nl ++ join nl (l2 :: ls))
      with (l ++ String newline (join nl (l2 :: ls))).
    rewrite split_app_newline by assumption.
    now rewrite IH by (auto; discriminate).
Qed.

End OrderFacts.

Import OrderFacts.

Ltac sub_keywords :=
  let line := fresh "line" in
  let H := fresh "H" in
  intros line H; unfold allKeywords;
  rewrite !isHeader_app, !orb_true_iff; tauto.

(** In every order, each field is what the splitter makes of its own
    section taken alone. *)
Lemma heuristic_layout (o : order) (R D E : block)
    (sep1 sep2 : list string) :
  wellFormed resolutionKeywords (descriptionKeywords ++ edgeKeywords) R = true ->
  wellFormed descriptionKeywords (resolutionKeywords ++ edgeKeywords) D = true ->
  wellFormed edgeKeywords (resolutionKeywords ++ descriptionKeywords) E = true ->
  separator sep1 = true -> separator sep2 = true ->
  heuristic (layout o R D E sep1 sep2) = sectionRecord R D E.
Proof.
  intros HR HD HE H1 H2.
  destruct (separator_spec _ H1) as (N1 & B1 & L1).
  destruct (separator_spec _ H2) as (N2 & B2 & L2).
  pose proof (wellFormed_lines _ _ _ HR) as LR.
  pose proof (wellFormed_lines _ _ _ HD) as LD.
  pose proof (wellFormed_lines _ _ _ HE) as LE.
  pose proof (wellFormed_mark _ _ _ HR) as MR.
  pose proof (wellFormed_mark _ _ _ HD) as MD.
  pose proof (wellFormed_mark _ _ _ HE) as ME.
  destruct (wellFormed_own _ _ _ HR) as [OR CR].
  destruct (wellFormed_own _ _ _ HD) as [OD CD].
  destruct (wellFormed_own _ _ _ HE) as [OE CE].
  assert (FRD : noHeader resolutionKeywords (blockLines D) = true)
    by (apply (fun a => wellFormed_foreign _ _ _ _ a HD); sub_keywords).
  assert (FRE : noHeader resolutionKeywords (blockLines E) = true)
    by (apply (fun a => wellFormed_foreign _ _ _ _ a HE); sub_keywords).
  assert (FDR : noHeader descriptionKeywords (blockLines R) = true)
    by (apply (fun a => wellFormed_foreign _ _ _ _ a HR); sub_keywords).
  assert (FDE : noHeader descriptionKeywords (blockLines E) = true)
    by (apply (fun a => wellFormed_foreign _ _ _ _ a HE); sub_keywords).
  assert (FER : noHeader edgeKeywords (blockLines R) = true)
    by (apply (fun a => wellFormed_foreign _ _ _ _ a HR); sub_keywords).
  assert (FED : noHeader edgeKeywords (blockLines D) = true)
    by (apply (fun a => wellFormed_foreign _ _ _ _ a HD); sub_keywords).
  unfold heuristic, layout, sectionRecord.
  rewrite split_join.
  - destruct o; unfold layoutLines, arrange; f_equal;
      first [ now apply extract_first
            | now apply extract_second
            | now apply extract_third ].
  - destruct o; discriminate.
  - destruct o; unfold layoutLines, arrange;
      now rewrite !forallb_app, ?LR, ?LD, ?LE, ?L1, ?L2.
Qed.

(** When nothing inside the bodies ends a section, each field is the
    body of its section. *)
Lemma sectionRecord_bodies (R D E : block) :
  wellFormed resolutionKeywords (descriptionKeywords ++ edgeKeywords) R = true ->
  wellFormed descriptionKeywords (resolutionKeywords ++ edgeKeywords) D = true ->
  wellFormed edgeKeywords (resolutionKeywords ++ descriptionKeywords) E = true ->
  noInnerBoundary (body R) && noInnerBoundary (body D)
    && noInnerBoundary (body E) = true ->
  sectionRecord R D E = bodyRecord R D E.
Proof.
  intros HR HD HE HB.
  apply andb_true_iff in HB as [HB BE]. apply andb_true_iff in HB as [BR BD].
  destruct (wellFormed_own _ _ _ HR) as [OR _].
  destruct (wellFormed_own _ _ _ HD) as [OD _].
  destruct (wellFormed_own _ _ _ HE) as [OE _].
  unfold sectionRecord, bodyRecord.
  now rewrite !extractSection_unbroken.
Qed.

(** C8, as the code has it.  Take three sections parted by blank lines.
    Each has a header that satisfies the header rule of its own keyword
    set and of no other set, and a body with at least one line that is
    not a header of its own set and no line that is a header of another
    set.  Whenever the strict path fails, every order of the three
    sections yields the same record; each section goes to the field of
    its own keyword set, the field being what the splitter makes of that
    section alone; and when no blank body line is followed by a body line
    with a colon or a hash sign, the field is the section's body itself:
    its lines, without repeated headers of its set, joined and trimmed. *)
Theorem section_order_irrelevant (R D E : block) (o1 o2 : order)
    (sep1 sep2 sep3 sep4 : list string) :
  wellFormed resolutionKeywords (descriptionKeywords ++ edgeKeywords) R = true ->
  wellFormed descriptionKeywords (resolutionKeywords ++ edgeKeywords) D = true ->
  wellFormed edgeKeywords (resolutionKeywords ++ descriptionKeywords) E = true ->
  separator sep1 = true -> separator sep2 = true ->
  separator sep3 = true -> separator sep4 = true ->
  tryParse (layout o1 R D E sep1 sep2) = None ->
  tryParse (layout o2 R D E sep3 sep4) = None ->
  parseModelResponse (layout o1 R D E sep1 sep2)
  = parseModelResponse (layout o2 R D E sep3 sep4)
  /\ parseModelResponse (layout o1 R D E sep1 sep2) = sectionRecord R D E
  /\ (noInnerBoundary (body R) && noInnerBoundary (body D)
        && noInnerBoundary (body E) = true ->
      parseModelResponse (layout o1 R D E sep1 sep2) = bodyRecord R D E).
Proof.
  intros HR HD HE H1 H2 H3 H4 P1 P2. unfold parseModelResponse.
  rewrite P1, P2, !heuristic_layout; auto.
  repeat split. now apply sectionRecord_bodies.
Qed.

Lemma section_order_irrelevant_witness :
  parseModelResponse
    (layout RDE repeatedBlock descriptionBlock edgeBlock [""] [""; " "])
  = parseModelResponse
      (layout EDR repeatedBlock descriptionBlock edgeBlock [" "] [""])
  /\ parseModelResponse
       (layout RDE repeatedBlock descriptionBlock edgeBlock [""] [""; " "])
     = sectionRecord repeatedBlock descriptionBlock edgeBlock
  /\ parseModelResponse
       (layout RDE repeatedBlock descriptionBlock edgeBlock [""] [""; " "])
     = record (join nl ["YES if X happens."; ""; "NO otherwise."])
         (join nl ["This market tracks X."; ""; "More."])
         "Ambiguous if Y.".
Proof.
  destruct (section_order_irrelevant repeatedBlock descriptionBlock edgeBlock
              RDE EDR [""] [""; " "] [" "] [""]
              eq_refl eq_refl eq_refl eq_refl eq_refl eq_refl eq_refl
              eq_refl eq_refl) as (H1 & H2 & H3).
  split; [exact H1 | split; [exact H2 | exact (H3 eq_refl)]].
Defined.

(** C8 as stated fails in three ways.  A body line of the description
    that mentions the criteria with a colon opens the resolution field
    when the description comes first; a resolution header with no body
    takes the following section for its content; and a description
    header that also names the edge cases opens the edge field when it
    comes before the edge section. *)
Lemma section_order_matters :
  (parseModelResponse
     (layout RDE resolutionBlock proseBlock edgeBlock [""] [""])
   = record "YES if X happens."
       (join nl ["Per the criteria: X"; "more"]) "Ambiguous if Y."
   /\ parseModelResponse
        (layout DRE resolutionBlock proseBlock edgeBlock [""] [""])
      = record "more"
          (join nl ["Per the criteria: X"; "more"]) "Ambiguous if Y.")
  /\ (parseModelResponse
        (layout RDE bareBlock descriptionBlock edgeBlock [""] [""])
      = record
          (join nl ["Description:"; "This market tracks X."; ""; "More."])
          (join nl ["This market tracks X."; ""; "More."])
          "Ambiguous if Y."
      /\ parseModelResponse
           (layout RED bareBlock descriptionBlock edgeBlock [""] [""])
         = record
             (join nl ["## Edge cases"; "Ambiguous if Y."])
             (join nl ["This market tracks X."; ""; "More."])
             "Ambiguous if Y.")
  /\ (parseModelResponse
        (layout DER resolutionBlock ambiguousBlock edgeBlock [""] [""])
      = record "YES if X happens." "D" "D"
      /\ parseModelResponse
           (layout EDR resolutionBlock ambiguousBlock edgeBlock [""] [""])
         = record "YES if X happens." "D" "Ambiguous if Y.").
Proof. repeat split. Qed.

(** ** The fence pattern *)

Module RegexFacts.
Import Regex StringFacts TrimFacts.

Section Run.
Context {R : Type}.
Implicit Types (k : string -> option string -> option R).

Lemma run_Lit p s cap k : run (Lit p) (p ++ s) cap k = k s cap.
Proof.
  induction p as [|c p IH]; simpl; auto. now rewrite Ascii.eqb_refl.
Qed.

Lemma run_Lit_fail p s cap k :
  startsWith p s = false -> run (Lit p) s cap k = None.
Proof.
  revert s. induction p as [|c p IH]; intros s; simpl; [discriminate|].
  destruct s as [|c' s]; auto.
  destruct (Ascii.eqb c c'); simpl; auto.
Qed.

Lemma star_committed (s : string) (k : string -> option R) :
  (forall c s', isWhiteSpace c = true -> k (String c s') = None) ->
  star isWhiteSpace s k = k (trimStart s).
Proof.
  intros Hk. induction s as [|c s IH]; simpl; auto.
  destruct (isWhiteSpace c) eqn:E; auto.
  rewrite IH. destruct (k (trimStart s)) eqn:Ek; auto.
Qed.

Lemma star_any_here (s : string) (k : string -> option R) :
  (forall a b, s = a ++ b -> a <> "" -> k b = None) ->
  star any s k = k s.
Proof.
  induction s as [|c s IH]; intros H; simpl; auto.
  rewrite IH.
  - rewrite (H (String c "") s); auto. discriminate.
  - intros a b -> Ha. apply (H (String c a) b); auto. discriminate.
Qed.

Lemma star_any_last (s1 s2 : string) (k : string -> option R) (r : R) :
  k s2 = Some r ->
  (forall a b, s2 = a ++ b -> a <> "" -> k b = None) ->
  star any (s1 ++ s2) k = Some r.
Proof.
  intros Hk Hlater. induction s1 as [|c s1 IH]; simpl.
  - now rewrite star_any_here.
  - now rewrite IH.
Qed.

Lemma run_Seq r1 r2 s cap k :
  run (Seq r1 r2) s cap k = run r1 s cap (fun s' cap' => run r2 s' cap' k).
Proof. reflexivity. Qed.

Lemma run_Chr c c' s cap k :
  run (Chr c) (String c' s) cap k = if Ascii.eqb c c' then k s cap else None.
Proof. reflexivity. Qed.

Lemma white_is_not (m c : ascii) :
  isWhiteSpace m = false -> isWhiteSpace c = true -> Ascii.eqb m c = false.
Proof.
  intros Hm Hc. destruct (Ascii.eqb_spec m c) as [-> | _]; congruence.
Qed.

Lemma fence_not_white (c : ascii) (s : string) :
  isWhiteSpace c = true -> startsWith fence (String c s) = false.
Proof.
  intros Hc.
  change (startsWith fence (String c s))
    with (Ascii.eqb "`" c && startsWith "``" s).
  now rewrite (white_is_not "`" c).
Qed.

Lemma trimStart_blank_app (w s : string) :
  allWhiteSpace w = true -> trimStart (w ++ s) = trimStart s.
Proof. intros H. now rewrite trimStart_app, H. Qed.

(** The end of the pattern: white space, skipped whole, then the fence. *)
Lemma run_closing t cap k :
  run (Seq (Star isWhiteSpace) (Lit fence)) t cap k
  = run (Lit fence) (trimStart t) cap k.
Proof.
  rewrite run_Seq. cbn [run]. apply star_committed.
  intros c s' Hc. apply run_Lit_fail. now apply fence_not_white.
Qed.

Lemma afterStar_fail whole k t :
  closesHere t = false -> afterStar whole k t = None.
Proof.
  unfold afterStar, closesHere. destruct t as [|c t]; auto.
  intros H. rewrite run_Chr. destruct (Ascii.eqb "}" c); auto.
  rewrite andb_true_l in H. rewrite run_closing. now apply run_Lit_fail.
Qed.

Lemma afterStar_ok whole k w u :
  allWhiteSpace w = true ->
  afterStar whole k ("}" ++ w ++ fence ++ u)
  = k u (Some (substring 0 (length whole - length (w ++ fence ++ u)) whole)).
Proof.
  intros Hw. unfold afterStar.
  change ("}" ++ w ++ fence ++ u) with (String "}" (w ++ fence ++ u)).
  rewrite run_Chr, Ascii.eqb_refl, run_closing.
  rewrite trimStart_blank_app by assumption.
  change (trimStart (fence ++ u)) with (fence ++ u).
  apply run_Lit.
Qed.

Lemma closesWithin_suffix (s a b : string) :
  closesWithin s = false -> s = a ++ b -> closesHere b = false.
Proof.
  revert s. induction a as [|c a IH]; intros s H ->.
  - destruct b; auto. simpl in H. now apply orb_false_iff in H.
  - change (closesWithin (String c (a ++ b)) = false) in H.
    cbn [closesWithin] in H. apply orb_false_iff in H as [_ H].
    now apply (IH (a ++ b)).
Qed.

Lemma closesWithin_blank_app (w s : string) :
  allWhiteSpace w = true -> closesWithin (w ++ s) = closesWithin s.
Proof.
  intros H. induction w as [|c w IH]; auto.
  simpl in H. apply andb_true_iff in H as [Hc Hw].
  change (closesWithin (String c (w ++ s))
          = closesWithin s).
  cbn [closesWithin closesHere]. rewrite (white_is_not "}" c), IH; auto.
Qed.

(** The group: from the opening brace to the last closing brace that
    white space and a fence follow. *)
Lemma substring_prefix (a b : string) :
  substring 0 (length (a ++ b) - length b) (a ++ b) = a.
Proof.
  rewrite length_app, Nat.add_sub.
  induction a as [|c a IH]; simpl.
  - destruct b; reflexivity.
  - now rewrite IH.
Qed.

Lemma run_braces mid w u k r :
  allWhiteSpace w = true -> closesWithin u = false ->
  k u (Some ("{" ++ mid ++ "}")) = Some r ->
  run (Grp (Seq (Chr "{") (Seq (Star any) (Chr "}"))))
    ("{" ++ mid ++ "}" ++ w ++ fence ++ u) None
    (fun s' cap' => run (Seq (Star isWhiteSpace) (Lit fence)) s' cap' k)
  = Some r.
Proof.
  intros Hw Hu Hk.
  set (whole := "{" ++ mid ++ "}" ++ w ++ fence ++ u).
  change (star any (mid ++ "}" ++ w ++ fence ++ u) (afterStar whole k)
          = Some r).
  apply star_any_last.
  - rewrite afterStar_ok by assumption. rewrite <- Hk. do 2 f_equal.
    unfold whole.
    replace ("{" ++ mid ++ "}" ++ w ++ fence ++ u)
      with (("{" ++ mid ++ "}") ++ w ++ fence ++ u)
      by (now rewrite !app_assoc).
    apply substring_prefix.
  - intros a b E Ha. apply afterStar_fail.
    destruct a as [|c a]; [congruence|].
    change ("}" ++ w ++ fence ++ u) with (String "}" (w ++ fence ++ u)) in E.
    simpl in E. injection E as _ E.
    apply (closesWithin_suffix (w ++ fence ++ u) a b); auto.
    rewrite closesWithin_blank_app by assumption.
    exact Hu.
Qed.
End Run.

Lemma run_Opt {R} r s cap (k : string -> option string -> option R) :
  run (Opt r) s cap k
  = match run r s cap k with Some x => Some x | None => k s cap end.
Proof. reflexivity. Qed.

Lemma run_Star {R} p s cap (k : string -> option string -> option R) :
  run (Star p) s cap k = star p s (fun s' => k s' cap).
Proof. reflexivity. Qed.

Lemma run_Grp_fail {R} r c s cap (k : string -> option string -> option R) :
  isWhiteSpace c = true ->
  run (Seq (Grp (Seq (Chr "{") r)) (Seq (Star isWhiteSpace) (Lit fence)))
    (String c s) cap k = None.
Proof.
  intros Hc. rewrite run_Seq.
  change (run (Chr "{") (String c s) cap
            (fun s' cap' =>
               run r s' cap'
                 (fun s'' _ =>
                    run (Seq (Star isWhiteSpace) (Lit fence)) s''
                      (Some (substring 0 (length (String c s) - length s'')
                               (String c s))) k)) = None).
  now rewrite run_Chr, (white_is_not "{" c).
Qed.

(** After the opening fence and the optional tag. *)
Lemma run_inner ws1 mid ws2 post :
  allWhiteSpace ws1 = true -> allWhiteSpace ws2 = true ->
  closesWithin post = false ->
  run (Seq (Star isWhiteSpace)
         (Seq (Grp (Seq (Chr "{") (Seq (Star any) (Chr "}"))))
            (Seq (Star isWhiteSpace) (Lit fence))))
    (ws1 ++ "{" ++ mid ++ "}" ++ ws2 ++ fence ++ post) None
    (fun _ cap => Some cap)
  = Some (Some ("{" ++ mid ++ "}")).
Proof.
  intros H1 H2 Hp. rewrite run_Seq, run_Star, star_committed.
  - rewrite trimStart_blank_app by assumption.
    change (trimStart ("{" ++ mid ++ "}" ++ ws2 ++ fence ++ post))
      with ("{" ++ mid ++ "}" ++ ws2 ++ fence ++ post).
    rewrite run_Seq. now apply run_braces.
  - intros c s' Hc. now apply run_Grp_fail.
Qed.

Lemma isTag_spec tag : isTag tag = true -> tag = "" \/ tag = "json".
Proof.
  unfold isTag. rewrite orb_true_iff, !String.eqb_eq. tauto.
Qed.

Lemma no_json_tag ws1 s :
  allWhiteSpace ws1 = true -> startsWith "json" (ws1 ++ "{" ++ s) = false.
Proof.
  destruct ws1 as [|c w]; auto. simpl allWhiteSpace. intros H.
  apply andb_true_iff in H as [Hc _].
  change (Ascii.eqb "j" c && startsWith "son" (w ++ "{" ++ s) = false).
  now rewrite (white_is_not "j" c).
Qed.

Lemma matchHere_fenced tag ws1 mid ws2 post :
  isTag tag = true ->
  allWhiteSpace ws1 = true -> allWhiteSpace ws2 = true ->
  closesWithin post = false ->
  matchHere jsonFence (fencedText "" tag ws1 mid ws2 post)
  = Some (Some ("{" ++ mid ++ "}")).
Proof.
  intros Ht H1 H2 Hp. unfold matchHere, jsonFence, fencedText.
  change ("" ++ fence ++ tag ++ ws1 ++ "{" ++ mid ++ "}" ++ ws2 ++ fence ++ post)
    with (fence ++ tag ++ ws1 ++ "{" ++ mid ++ "}" ++ ws2 ++ fence ++ post).
  rewrite run_Seq, run_Lit, run_Seq, run_Opt.
  pose proof (run_inner ws1 mid ws2 post H1 H2 Hp) as Hin.
  destruct (isTag_spec _ Ht) as [-> | ->].
  - rewrite run_Lit_fail by now apply no_json_tag.
    exact Hin.
  - rewrite run_Lit. now rewrite Hin.
Qed.

Lemma fence_lookahead (b rest : string) :
  b <> "" ->
  startsWith fence (b ++ fence ++ rest) = startsWith fence (b ++ fence).
Proof.
  destruct b as [|c1 [|c2 [|c3 b]]]; [congruence | | | ]; intros _.
  - change (Ascii.eqb "`" c1 && true = Ascii.eqb "`" c1 && true). reflexivity.
  - change (Ascii.eqb "`" c1 && (Ascii.eqb "`" c2 && true)
            = Ascii.eqb "`" c1 && (Ascii.eqb "`" c2 && true)). reflexivity.
  - reflexivity.
Qed.

(** No match begins where no triple backtick begins. *)
Lemma exec_skip (pre rest : string) :
  opensBefore pre fence = false ->
  exec jsonFence (pre ++ fence ++ rest) = exec jsonFence (fence ++ rest).
Proof.
  induction pre as [|c pre IH]; auto.
  intros H. cbn [opensBefore] in H. apply orb_false_iff in H as [H1 H2].
  change ((String c pre) ++ fence ++ rest)
    with (String c (pre ++ fence ++ rest)).
  cbn [exec]. unfold matchHere at 1, jsonFence at 1.
  rewrite run_Seq, run_Lit_fail.
  - now apply IH.
  - change (String c (pre ++ fence ++ rest))
      with (String c pre ++ fence ++ rest).
    rewrite fence_lookahead by discriminate. exact H1.
Qed.

Lemma exec_fenced pre tag ws1 mid ws2 post :
  opensBefore pre fence = false ->
  isTag tag = true ->
  allWhiteSpace ws1 = true -> allWhiteSpace ws2 = true ->
  closesWithin post = false ->
  exec jsonFence (fencedText pre tag ws1 mid ws2 post)
  = Some (Some ("{" ++ mid ++ "}")).
Proof.
  intros Hpre Ht H1 H2 Hp. unfold fencedText. rewrite exec_skip by assumption.
  pose proof (matchHere_fenced tag ws1 mid ws2 post Ht H1 H2 Hp) as Hm.
  unfold fencedText in Hm.
  change ("" ++ fence ++ tag ++ ws1 ++ "{" ++ mid ++ "}" ++ ws2 ++ fence ++ post)
    with (fence ++ tag ++ ws1 ++ "{" ++ mid ++ "}" ++ ws2 ++ fence ++ post) in Hm.
  destruct (fence ++ tag ++ ws1 ++ "{" ++ mid ++ "}" ++ ws2 ++ fence ++ post);
    cbn [exec]; now rewrite Hm.
Qed.

End RegexFacts.


Import RegexFacts.

(** C3 as stated fails: the text holds the fenced record of scenario A,
    but an earlier fenced block is where the pattern first matches; its
    capture is not JSON, and the fields come from the splitter. *)
Lemma earlier_fence_hides_record :
  Json.parse (recordText "X" "Y" "Z") = Some (record "X" "Y" "Z")
  /\ parseModelResponse earlierFence = record "```" "```" "```".
Proof. split; reflexivity. Qed.

(** C4 on the code: with two fenced records the capture runs from the
    first opening brace to the last closing brace before the last
    fence, across the second block; it is not JSON, the strict path
    fails, and the record of the first block is not returned. *)
Theorem capture_spans_later_fence :
  Regex.exec Regex.jsonFence twoFences
  = Some (Some (recordText "X" "Y" "Z" ++ nl ++ "```" ++ nl
                  ++ "Alternatively:" ++ nl ++ "```json" ++ nl
                  ++ recordText "P" "Q" "R"))
  /\ Json.parse (recordText "X" "Y" "Z") = Some (record "X" "Y" "Z")
  /\ tryParse twoFences = None
  /\ parseModelResponse twoFences
     = record (join nl ["```"; "Alternatively:"; "```json"; "```"])
              (join nl ["```"; "Alternatively:"; "```json"; "```"])
              (join nl ["```"; "Alternatively:"; "```json"; "```"]).
Proof. repeat split. Qed.

(** * Further properties of the code *)

(** ** The field of one keyword set *)

Module FieldFacts.

Lemma trimStart_fixed (c : ascii) (s : string) :
  isWhiteSpace c = false -> trimStart (String c s) = String c s.
Proof. intros H. simpl. now rewrite H. Qed.

Lemma trimEnd_idempotent (s : string) : trimEnd (trimEnd s) = trimEnd s.
Proof.
  induction s as [|c s IH]; auto. simpl.
  destruct (isWhiteSpace c && isEmpty (trimEnd s)) eqn:E; auto.
  simpl. now rewrite IH, E.
Qed.

Lemma trimEnd_head (c : ascii) (s : string) :
  isWhiteSpace c = false -> trimEnd (String c s) = String c (trimEnd s).
Proof. intros H. simpl. now rewrite H. Qed.

Lemma trimStart_head (s : string) :
  trimStart s = "" \/ exists c t, trimStart s = String c t /\ isWhiteSpace c = false.
Proof.
  induction s as [|c s IH]; simpl; auto.
  destruct (isWhiteSpace c) eqn:E; auto. right. eauto.
Qed.

Lemma trim_idempotent (s : string) : trim (trim s) = trim s.
Proof.
  unfold trim. destruct (trimStart_head s) as [-> | (c & t & -> & Hc)]; auto.
  rewrite (trimEnd_head _ _ Hc), (trimStart_fixed _ _ Hc).
  rewrite <- (trimEnd_head _ _ Hc). apply trimEnd_idempotent.
Qed.

(** While collecting, the loop pushes a run of consecutive lines,
    leaving out the headers of the set. *)
Lemma scan_collecting keywords (lines : list string) :
  forall sec, exists seg post,
    lines = (seg ++ post)%list
    /\ scan keywords lines sec true
       = (sec ++ filter (notHeader keywords) seg)%list.
Proof.
  induction lines as [|l rest IH]; intros sec.
  - exists [], []. simpl. now rewrite List.app_nil_r.
  - simpl.
    destruct (isHeader keywords (toLowerCase l)) eqn:E.
    + destruct (IH sec) as (seg & post & -> & H).
      exists (l :: seg), post. split; auto. simpl. unfold notHeader at 1.
      now rewrite E.
    + destruct (_ && _ && _).
      * exists [], (l :: rest). simpl. now rewrite List.app_nil_r.
      * destruct (IH (sec ++ [l])%list) as (seg & post & -> & H).
        exists (l :: seg), post. split; auto. simpl. unfold notHeader at 1.
        rewrite E. simpl. now rewrite H, <- List.app_assoc.
Qed.

Lemma scan_segment keywords (lines : list string) :
  exists pre seg post,
    lines = (pre ++ seg ++ post)%list
    /\ scan keywords lines [] false = filter (notHeader keywords) seg.
Proof.
  induction lines as [|l rest (pre & seg & post & IH1 & IH2)].
  - exists [], [], []. auto.
  - simpl. destruct (isHeader keywords (toLowerCase l)) eqn:E.
    + destruct (scan_collecting keywords rest []) as (seg' & post' & -> & H).
      exists [], (l :: seg'), post'. split; auto. simpl. unfold notHeader at 1.
      now rewrite E.
    + exists (l :: pre), seg, post. split; auto. simpl. now rewrite IH1.
Qed.

Lemma scan_plain_app keywords (ls rest : list string) :
  forallb (plainLine keywords) ls = true ->
  forall sec,
    scan keywords (ls ++ rest) sec true = scan keywords rest (sec ++ ls) true.
Proof.
  induction ls as [|l ls IH]; intros H sec.
  - now rewrite List.app_nil_r.
  - simpl in H. apply andb_true_iff in H as [Hl Hls].
    unfold plainLine, notHeader in Hl. apply andb_true_iff in Hl as [Hh Hb].
    apply negb_true_iff in Hh, Hb.
    change ((l :: ls) ++ rest)%list with (l :: (ls ++ rest))%list.
    rewrite scan_collect; auto.
    + rewrite IH by assumption. now rewrite <- List.app_assoc.
    + now rewrite Hb.
Qed.

End FieldFacts.

Import FieldFacts.

(** X1.  The field of a keyword set is the sentinel or is made of one
    run of consecutive lines of the text, the set's own header lines
    left out, joined and trimmed: lines are never reordered, repeated
    or taken from two separate places. *)
Theorem field_is_a_run_of_lines (lines keywords : list string) :
  exists pre seg post,
    lines = (pre ++ seg ++ post)%list
    /\ extractSection lines keywords
       = orElse (trim (join nl (filter (notHeader keywords) seg))) sentinel.
Proof.
  destruct (scan_segment keywords lines) as (pre & seg & post & H1 & H2).
  exists pre, seg, post. split; auto. unfold extractSection. now rewrite H2.
Qed.

(** X2.  A field has no white space (and so no blank line) at either
    end: trimming it again changes nothing. *)
Theorem field_is_trimmed (lines keywords : list string) :
  trim (extractSection lines keywords) = extractSection lines keywords.
Proof.
  unfold extractSection, orElse.
  destruct (isEmpty (trim (join nl (scan keywords lines [] false)))).
  - reflexivity.
  - apply trim_idempotent.
Qed.

(** X3.  Lines that come before the first header of the set never
    reach the field, whatever they hold. *)
Theorem text_before_first_header_is_ignored
    (keywords pre rest : list string) :
  noHeader keywords pre = true ->
  extractSection (pre ++ rest) keywords = extractSection rest keywords.
Proof.
  intros H. unfold extractSection. now rewrite (scan_skip _ _ _ H).
Qed.

Lemma text_before_first_header_is_ignored_witness :
  extractSection ["Sure, here it is."; ""; "Description:"; "D"]
    descriptionKeywords
  = extractSection ["Description:"; "D"] descriptionKeywords.
Proof.
  apply (text_before_first_header_is_ignored descriptionKeywords
           ["Sure, here it is."; ""] ["Description:"; "D"]).
  reflexivity.
Defined.

(** X4.  Once a section has a header of the set and a body, what
    follows its boundary (the end of the text, or a blank line whose
    next non-blank line holds a colon or a hash sign) has no influence
    on the field. *)
Theorem text_after_boundary_is_ignored (keywords pre : list string)
    (s : block) (post1 post2 : list string) :
  noHeader keywords pre = true ->
  ownSection keywords s = true ->
  boundary post1 = true -> boundary post2 = true ->
  extractSection (pre ++ blockLines s ++ post1) keywords
  = extractSection (pre ++ blockLines s ++ post2) keywords.
Proof.
  intros Hpre Hown H1 H2. now rewrite !extract_own.
Qed.

Lemma text_after_boundary_is_ignored_witness :
  extractSection
    (["Intro"] ++ blockLines descriptionBlock ++ [""; "Edge Cases:"; "E"])
    descriptionKeywords
  = extractSection
      (["Intro"] ++ blockLines descriptionBlock ++ [" "; ""; "# Notes"])
      descriptionKeywords.
Proof.
  apply (text_after_boundary_is_ignored descriptionKeywords ["Intro"]
           descriptionBlock [""; "Edge Cases:"; "E"] [" "; ""; "# Notes"]);
    reflexivity.
Defined.

(** X5.  A second header of the same set does not start the field
    afresh: the header line itself is dropped and the lines on both
    sides of it end up in the one field. *)
Theorem repeated_header_joins_sections (keywords : list string)
    (h1 : string) (body1 : list string) (h2 : string) (body2 : list string) :
  isHeader keywords (toLowerCase h1) = true ->
  isHeader keywords (toLowerCase h2) = true ->
  forallb (plainLine keywords) body1 = true ->
  forallb (plainLine keywords) body2 = true ->
  extractSection (h1 :: body1 ++ h2 :: body2) keywords
  = orElse (trim (join nl (body1 ++ body2))) sentinel.
Proof.
  intros H1 H2 B1 B2. unfold extractSection.
  rewrite (scan_header _ _ _ _ _ H1), (scan_plain_app _ _ _ B1).
  rewrite (scan_header _ _ _ _ _ H2).
  rewrite <- (List.app_nil_r body2) at 1.
  now rewrite (scan_plain_app _ _ _ B2).
Qed.

Lemma repeated_header_joins_sections_witness :
  extractSection
    ("Edge Cases:" :: ["first"] ++ "More edge cases:" :: ["second"])
    edgeKeywords
  = orElse (trim (join nl (["first"] ++ ["second"]))) sentinel.
Proof.
  apply (repeated_header_joins_sections edgeKeywords "Edge Cases:" ["first"]
           "More edge cases:" ["second"]); reflexivity.
Defined.

(** ** What the pattern of line 80 matches *)

Module MatchFacts.
Import Regex.

Section Inversion.
Context {R : Type}.
Implicit Types (k : string -> option string -> option R).

Lemma run_Lit_inv p s cap k r :
  run (Lit p) s cap k = Some r -> exists t, s = p ++ t /\ k t cap = Some r.
Proof.
  revert s. induction p as [|c p IH]; intros s; simpl.
  - intros H. now exists s.
  - destruct s as [|c' s]; [discriminate|].
    destruct (Ascii.eqb_spec c c') as [<- | _]; [|discriminate].
    intros H. destruct (IH _ H) as (t & -> & Ht). now exists t.
Qed.

Lemma star_white_inv s (k : string -> option R) r :
  star isWhiteSpace s k = Some r ->
  exists a b, s = a ++ b /\ allWhiteSpace a = true /\ k b = Some r.
Proof.
  induction s as [|c s IH]; simpl.
  - intros H. now exists "", "".
  - destruct (isWhiteSpace c) eqn:E.
    + destruct (star isWhiteSpace s k) as [x|] eqn:Es.
      * intros [= <-]. destruct (IH eq_refl) as (a & b & -> & Ha & Hb).
        exists (String c a), b. simpl. now rewrite E, Ha.
      * intros H. now exists "", (String c s).
    + intros H. now exists "", (String c s).
Qed.

Lemma star_any_inv s (k : string -> option R) r :
  star any s k = Some r -> exists a b, s = a ++ b /\ k b = Some r.
Proof.
  induction s as [|c s IH]; simpl.
  - intros H. now exists "", "".
  - destruct (star any s k) as [x|] eqn:Es.
    + intros [= <-]. destruct (IH eq_refl) as (a & b & -> & Hb).
      now exists (String c a), b.
    + intros H. now exists "", (String c s).
Qed.
End Inversion.

(** A match at the head of [s] reads a fenced block there. *)
Lemma matchHere_inv s cap :
  matchHere jsonFence s = Some cap ->
  exists tag ws1 mid ws2 post,
    s = fencedText "" tag ws1 mid ws2 post
    /\ isTag tag = true
    /\ allWhiteSpace ws1 = true /\ allWhiteSpace ws2 = true
    /\ cap = Some ("{" ++ mid ++ "}").
Proof.
  unfold matchHere, jsonFence. rewrite run_Seq. intros H.
  apply run_Lit_inv in H as (t1 & -> & H).
  rewrite run_Seq, run_Opt in H.
  assert (Htag : exists tag t2,
             t1 = tag ++ t2 /\ isTag tag = true
             /\ run (Seq (Star isWhiteSpace)
                       (Seq (Grp (Seq (Chr "{") (Seq (Star any) (Chr "}"))))
                          (Seq (Star isWhiteSpace) (Lit fence))))
                  t2 None (fun _ cap => Some cap) = Some cap).
  { match type of H with
    | match ?x with _ => _ end = _ => destruct x as [y|] eqn:E
    end.
    - injection H as ->. apply run_Lit_inv in E as (t2 & -> & E).
      now exists "json", t2.
    - now exists "", t1. }
  clear H. destruct Htag as (tag & t2 & -> & Ht & H).
  rewrite run_Seq, run_Star in H.
  apply star_white_inv in H as (ws1 & b & -> & Hw1 & H).
  rewrite run_Seq in H.
  change (run (Seq (Chr "{") (Seq (Star any) (Chr "}"))) b None
            (fun s' _ =>
               run (Seq (Star isWhiteSpace) (Lit fence)) s'
                 (Some (substring 0 (length b - length s') b))
                 (fun _ cap => Some cap)) = Some cap) in H.
  rewrite run_Seq in H. destruct b as [|c b1]; [discriminate|].
  rewrite run_Chr in H. destruct (Ascii.eqb_spec "{" c) as [<- | _];
    [|discriminate].
  rewrite run_Seq, run_Star in H.
  apply star_any_inv in H as (mid & b2 & -> & H).
  destruct b2 as [|c b3]; [discriminate|].
  rewrite run_Chr in H. destruct (Ascii.eqb_spec "}" c) as [<- | _];
    [|discriminate].
  rewrite run_Seq, run_Star in H.
  apply star_white_inv in H as (ws2 & b4 & -> & Hw2 & H).
  apply run_Lit_inv in H as (post & -> & H). injection H as <-.
  exists tag, ws1, mid, ws2, post. repeat split; auto.
  f_equal.
  change (substring 0
            (length (String "{" (mid ++ String "}" (ws2 ++ fence ++ post)))
             - length (ws2 ++ fence ++ post))
            (String "{" (mid ++ String "}" (ws2 ++ fence ++ post)))
          = "{" ++ mid ++ "}").
  replace (String "{" (mid ++ String "}" (ws2 ++ fence ++ post)))
    with (("{" ++ mid ++ "}") ++ ws2 ++ fence ++ post)
    by (simpl; now rewrite !app_assoc).
  apply substring_prefix.
Qed.

Lemma exec_inv s cap :
  exec jsonFence s = Some cap ->
  exists pre tag ws1 mid ws2 post,
    s = fencedText pre tag ws1 mid ws2 post
    /\ isTag tag = true
    /\ allWhiteSpace ws1 = true /\ allWhiteSpace ws2 = true
    /\ cap = Some ("{" ++ mid ++ "}").
Proof.
  induction s as [|c s IH]; cbn [exec].
  - destruct (matchHere jsonFence "") eqn:E; [|discriminate].
    intros [= <-]. apply matchHere_inv in E as (tag & ws1 & mid & ws2 & post & E).
    now exists "", tag, ws1, mid, ws2, post.
  - destruct (matchHere jsonFence (String c s)) eqn:E.
    + intros [= <-].
      apply matchHere_inv in E as (tag & ws1 & mid & ws2 & post & E).
      now exists "", tag, ws1, mid, ws2, post.
    + intros H. destruct (IH H) as (pre & tag & ws1 & mid & ws2 & post & -> & H').
      now exists (String c pre), tag, ws1, mid, ws2, post.
Qed.

(** Without a triple backtick the pattern matches nowhere. *)
Lemma exec_no_fence s :
  includes fence s = false -> exec jsonFence s = None.
Proof.
  induction s as [|c s IH]; intros H.
  - reflexivity.
  - cbn [includes] in H. apply orb_false_iff in H as [H1 H2].
    cbn [exec]. unfold matchHere at 1, jsonFence at 1.
    rewrite run_Seq, (run_Lit_fail _ _ _ _ H1). auto.
Qed.

(** What follows an opening brace decodes to an object or not at all. *)
Lemma parseMembers_object fuel :
  forall s acc v r,
    parseMembers fuel s acc = Parsed v r -> exists ms, v = JObject ms.
Proof.
  induction fuel as [|fuel IH]; intros s acc v r; [discriminate|].
  cbn [parseMembers].
  destruct (expect "034" s); [|discriminate].
  destruct (parseChars s0 []); try discriminate.
  destruct (expect ":" (skipWs rest)); [|discriminate].
  destruct (parseValue fuel (skipWs s1)); try discriminate.
  destruct (expect "," (skipWs rest0)).
  - apply IH.
  - destruct (expect "}" (skipWs rest0)); [|discriminate].
    intros [= <- _]. eauto.
Qed.

Lemma parse_braced mid v :
  Json.parse ("{" ++ mid ++ "}") = Some v -> exists ms, v = JObject ms.
Proof.
  unfold Json.parse, parseText, enough.
  change (skipWs ("{" ++ mid ++ "}")) with ("{" ++ mid ++ "}").
  rewrite Nat.add_1_r. cbn [parseValue].
  change ("{" ++ mid ++ "}") with (String "{" (mid ++ "}")).
  cbn [Ascii.eqb Bool.eqb]. 
  destruct (expect "}" (skipWs (mid ++ "}"))) eqn:E.
  - destruct (skipWs s); [|discriminate]. intros [= <-]. eauto.
  - destruct (parseMembers _ _ _) eqn:Em; try discriminate.
    apply parseMembers_object in Em as [ms ->].
    destruct (skipWs rest); [|discriminate]. intros [= <-]. eauto.
Qed.

End MatchFacts.

(** ** Decoding the format the prompt asks for *)

Module RoundTrip.

Lemma units_cons (c : ascii) (s : string) :
  units (String c s) = Js.code c :: units s.
Proof. reflexivity. Qed.

Lemma parseChars_plain (s : string) :
  plainText s = true ->
  forall acc rest,
    parseChars (s ++ String "034" rest) acc
    = Parsed (rev acc ++ units s)%list rest.
Proof.
  induction s as [|c s IH]; intros H acc rest.
  - simpl. now rewrite List.app_nil_r.
  - simpl in H. apply andb_true_iff in H as [Hc Hs].
    unfold plainUnit in Hc. rewrite !andb_true_iff, !negb_true_iff in Hc.
    destruct Hc as [[H1 H2] H3].
    change (String c s ++ String "034" rest)
      with (String c (s ++ String "034" rest)).
    cbn [parseChars].
    change (Ascii.eqb c (ascii_of_N 34)) with (Ascii.eqb c "034") in H1.
    rewrite H1, H2, H3, (IH Hs), units_cons. simpl rev.
    now rewrite <- List.app_assoc.
Qed.

Lemma skipWs_head (c : ascii) (s : string) :
  isJsonWs c = false -> skipWs (String c s) = String c s.
Proof. intros H. simpl. now rewrite H. Qed.

Lemma expect_hit (c : ascii) (s : string) : expect c (String c s) = Some s.
Proof. simpl. now rewrite Ascii.eqb_refl. Qed.

(** A string value without escapes. *)
Lemma parse_string (fuel : nat) (a rest : string) :
  plainText a = true ->
  parseValue (S fuel) (String "034" (a ++ String "034" rest))
  = Parsed (JString (units a)) rest.
Proof.
  intros H. cbn [parseValue].
  change (Ascii.eqb "034" "{") with false.
  change (Ascii.eqb "034" "[") with false.
  change (Ascii.eqb "034" "034") with true.
  cbv iota. now rewrite (parseChars_plain a H).
Qed.

(** One member with a plain key and a plain string value, up to the
    unit [sep] that follows it. *)
Lemma parse_member (fuel : nat) (key a : string) (sep : ascii) (rest : string)
    (acc : list (jsstring * JSValue)) :
  plainText key = true -> plainText a = true -> isJsonWs sep = false ->
  parseMembers (S (S fuel))
    (String "034"
       (key ++ String "034"
          (String ":" (String "034"
             (a ++ String "034" (String sep rest))))))
    acc
  = match expect "," (String sep rest) with
    | Some r3 =>
        parseMembers (S fuel) (skipWs r3) ((units key, JString (units a)) :: acc)
    | None =>
        match expect "}" (String sep rest) with
        | Some r3 => Parsed (JObject (rev ((units key, JString (units a)) :: acc))) r3
        | None => SyntaxError
        end
    end.
Proof.
  intros Hk Ha Hs. cbn [parseMembers].
  rewrite expect_hit, (parseChars_plain key Hk).
  rewrite (skipWs_head ":") by reflexivity. rewrite expect_hit.
  rewrite (skipWs_head "034") by reflexivity.
  rewrite (parse_string fuel a _ Ha).
  now rewrite (skipWs_head sep _ Hs).
Qed.

Lemma expect_miss (c c' : ascii) (s : string) :
  Ascii.eqb c c' = false -> expect c (String c' s) = None.
Proof. intros H. simpl. now rewrite H. Qed.

Lemma recordText_units (a b c : string) :
  recordText a b c
  = String "{" (String "034" ("resolutionCriteria" ++ String "034"
      (String ":" (String "034" (a ++ String "034"
      (String "," (String "034" ("description" ++ String "034"
      (String ":" (String "034" (b ++ String "034"
      (String "," (String "034" ("edgeCases" ++ String "034"
      (String ":" (String "034" (c ++ String "034"
      (String "}" EmptyString)))))))))))))))))).
Proof.
  unfold recordText, member, quoted, dq. now rewrite !app_assoc.
Qed.

(** The JSON text of a record with plain fields decodes to the record. *)
Lemma parse_recordText (a b c : string) :
  plainText a = true -> plainText b = true -> plainText c = true ->
  Json.parse (recordText a b c) = Some (record a b c).
Proof.
  intros Ha Hb Hc. unfold Json.parse, parseText.
  assert (E : exists n, enough (recordText a b c) = S (S (S (S (S n))))).
  { unfold enough. rewrite recordText_units.
    cbn [length]. eexists. rewrite Nat.add_1_r. simpl. 
    rewrite <- !plus_n_Sm. reflexivity. }
  destruct E as [n ->]. rewrite recordText_units.
  rewrite (skipWs_head "{") by reflexivity.
  cbn [parseValue]. rewrite Ascii.eqb_refl.
  rewrite (skipWs_head "034") by reflexivity.
  rewrite (expect_miss "}" "034") by reflexivity.
  rewrite parse_member by (auto; reflexivity).
  rewrite expect_hit, (skipWs_head "034") by reflexivity.
  rewrite parse_member by (auto; reflexivity).
  rewrite expect_hit, (skipWs_head "034") by reflexivity.
  rewrite parse_member by (auto; reflexivity).
  rewrite (expect_miss "," "}") by reflexivity.
  rewrite expect_hit. reflexivity.
Qed.

Lemma includes_unit_app (m : ascii) (x y : string) :
  includes (String m "") (x ++ y)
  = includes (String m "") x || includes (String m "") y.
Proof.
  induction x as [|c x IH].
  - destruct y; reflexivity.
  - change (String c x ++ y) with (String c (x ++ y)).
    cbn [includes startsWith]. rewrite IH.
    destruct (x ++ y), x; now rewrite ?andb_true_r, ?orb_assoc.
Qed.

Lemma no_backtick_no_fence (s : string) :
  includes "`" s = false -> includes Regex.fence s = false.
Proof.
  intros H. destruct (includes Regex.fence s) eqn:E; auto.
  apply includes_spec in E as (x & y & ->).
  rewrite includes_unit_app in H. apply orb_false_iff in H as [_ H].
  discriminate.
Qed.

End RoundTrip.

Import MatchFacts RoundTrip.

(** ** The strict path *)

(** X6.  A text without a triple backtick never matches the pattern
    of line 80: it is handed whole to [JSON.parse], and the splitter
    answers only when that throws. *)
Theorem unfenced_text_is_parsed_whole (content : string) :
  includes Regex.fence content = false ->
  parseModelResponse content
  = match Json.parse content with
    | Some decoded => decoded
    | None => heuristic content
    end.
Proof.
  intros H. unfold parseModelResponse, tryParse.
  now rewrite (exec_no_fence _ H).
Qed.

Lemma unfenced_text_is_parsed_whole_witness :
  parseModelResponse "[1, 2]" = JArray [JNumber "1"; JNumber "2"].
Proof.
  apply (unfenced_text_is_parsed_whole "[1, 2]"). reflexivity.
Defined.

(** X7.  Whenever the pattern of line 80 matches, the text has a
    triple backtick, an optional [json] tag, optional white space, a
    braced content, optional white space and a triple backtick; the
    group always takes part, and [jsonMatch[1]] is that content, from
    its opening to its closing brace. *)
Theorem match_is_a_fenced_block (content : string) (jsonMatch : option string) :
  Regex.exec Regex.jsonFence content = Some jsonMatch ->
  exists pre tag ws1 mid ws2 post,
    content = fencedText pre tag ws1 mid ws2 post
    /\ isTag tag = true
    /\ allWhiteSpace ws1 = true /\ allWhiteSpace ws2 = true
    /\ jsonMatch = Some ("{" ++ mid ++ "}").
Proof. apply exec_inv. Qed.

Lemma match_is_a_fenced_block_witness :
  exists pre tag ws1 mid ws2 post,
    earlierFence = fencedText pre tag ws1 mid ws2 post
    /\ isTag tag = true
    /\ allWhiteSpace ws1 = true /\ allWhiteSpace ws2 = true
    /\ Some ("{oops}```" ++ nl ++ "```json" ++ nl ++ recordText "X" "Y" "Z")
       = Some ("{" ++ mid ++ "}").
Proof.
  apply (match_is_a_fenced_block earlierFence). reflexivity.
Defined.

(** X8.  Whenever the pattern of line 80 matches, the result is an
    object: what is decoded from a capture that begins with a brace is an
    object, and so is the record of the splitter.  Arrays, numbers,
    strings, booleans and [null] come back from unfenced texts only. *)
Theorem fenced_result_is_an_object (content : string)
    (jsonMatch : option string) :
  Regex.exec Regex.jsonFence content = Some jsonMatch ->
  exists members, parseModelResponse content = JObject members.
Proof.
  intros H. unfold parseModelResponse, tryParse. rewrite H.
  destruct (exec_inv _ _ H) as (pre & tag & ws1 & mid & ws2 & post & _ & _ & _ & _ & ->).
  destruct (Json.parse ("{" ++ mid ++ "}")) as [v|] eqn:E.
  - apply parse_braced in E as [ms ->]. eauto.
  - unfold heuristic, record. eauto.
Qed.

Lemma fenced_result_is_an_object_witness :
  exists members, parseModelResponse scenarioA = JObject members.
Proof.
  apply (fenced_result_is_an_object scenarioA
           (Some (recordText "X" "Y" "Z"))). reflexivity.
Defined.

Lemma fencedJson_fencedText (mid : string) :
  fencedJson ("{" ++ mid ++ "}") = fencedText "" "json" nl mid nl "".
Proof.
  unfold fencedJson, fencedText. now rewrite !app_assoc, !app_nil_r.
Qed.

Lemma recordText_braced (a b c : string) :
  recordText a b c
  = "{" ++ (member "resolutionCriteria" a ++ "," ++ member "description" b
              ++ "," ++ member "edgeCases" c) ++ "}".
Proof. unfold recordText. now rewrite !app_assoc. Qed.

(** X9.  The format the prompt asks for (lines 56-60) is read back:
    for fields without quote, backslash or control character, the JSON
    text of the record inside a [json] fence decodes to exactly these
    fields; so does the bare JSON text, when the fields hold no
    backtick. *)
Theorem record_round_trip (a b c : string) :
  plainText a = true -> plainText b = true -> plainText c = true ->
  parseModelResponse (fencedJson (recordText a b c)) = record a b c
  /\ (includes "`" (a ++ b ++ c) = false ->
      parseModelResponse (recordText a b c) = record a b c).
Proof.
  intros Ha Hb Hc. pose proof (parse_recordText a b c Ha Hb Hc) as Hp. split.
  - unfold parseModelResponse, tryParse.
    rewrite recordText_braced, fencedJson_fencedText.
    rewrite exec_fenced by reflexivity.
    now rewrite <- recordText_braced, Hp.
  - intros Ht. rewrite !includes_unit_app, !orb_false_iff in Ht.
    destruct Ht as (Ta & Tb & Tc).
    unfold parseModelResponse, tryParse. rewrite exec_no_fence, Hp; auto.
    apply no_backtick_no_fence.
    unfold recordText, member, quoted, dq.
    rewrite !includes_unit_app, Ta, Tb, Tc. reflexivity.
Qed.

Lemma record_round_trip_witness :
  parseModelResponse (fencedJson (recordText "YES if X." "About X" "If Y?"))
  = record "YES if X." "About X" "If Y?"
  /\ parseModelResponse (recordText "YES if X." "About X" "If Y?")
     = record "YES if X." "About X" "If Y?".
Proof.
  destruct (record_round_trip "YES if X." "About X" "If Y?"
              eq_refl eq_refl eq_refl) as [H1 H2].
  split; [exact H1 | apply H2; reflexivity].
Defined.

Lemma join_split (s : string) : join nl (split s) = s.
Proof.
  induction s as [|c s IH]; auto. simpl.
  destruct (LineFacts.split_head s) as (l & ls & b & Hs & _ & _).
  destruct (Ascii.eqb_spec c newline) as [-> | _].
  - rewrite join_cons by (rewrite Hs; discriminate). now rewrite IH.
  - rewrite Hs in *. destruct ls; simpl in *; now rewrite IH.
Qed.

(** X10.  [split] at line 88 and [join] at line 135 lose nothing:
    joining the lines of a text gives the text back, and splitting the
    join of lines without newline gives the lines back. *)
Theorem split_join_round_trip (content : string) (lines : list string) :
  join nl (split content) = content
  /\ (lines <> [] -> forallb isLine lines = true ->
      split (join nl lines) = lines).
Proof. split; [apply join_split | apply split_join]. Qed.

Lemma split_join_round_trip_witness :
  split (join nl ["a"; ""; "b"]) = ["a"; ""; "b"].
Proof.
  apply (proj2 (split_join_round_trip "" ["a"; ""; "b"]));
    [discriminate | reflexivity].
Defined.

(** ** The submit handler *)

(** X11.  A submit that the enabled button allows always ends with
    [loading] false and the two inputs untouched, and with exactly one of
    two outcomes: no error and the parsed response of a completed
    request as content; or no content and an error message that is not
    empty. *)
Theorem enabled_submit_settles (apiKey : option string) (reply : Reply)
    (st : AppState) :
  submitDisabled st = false ->
  let st' := fst (handleSubmit apiKey reply st) in
  loading st' = false
  /\ question st' = question st
  /\ resolutionDate st' = resolutionDate st
  /\ ((error st' = None
       /\ keyMissing apiKey = false
       /\ exists content,
            reply = Completed content
            /\ generatedContent st' = parseModelResponse content)
      \/ (generatedContent st' = JNull
          /\ exists message,
               error st' = Some message /\ isEmpty message = false)).
Proof.
  unfold submitDisabled. intros H.
  apply orb_false_iff in H as [H Hd]. apply orb_false_iff in H as [_ Hq].
  unfold handleSubmit. rewrite Hq, Hd. cbn [orb].
  unfold attempt. destruct (keyMissing apiKey).
  - cbn. repeat split. right. split; auto. eexists. split; reflexivity.
  - destruct reply as [m | m | content]; cbn; repeat split.
    + right. split; auto. eexists. split; [reflexivity|].
      now apply orElse_isEmpty.
    + right. split; auto. eexists. split; [reflexivity|].
      now apply orElse_isEmpty.
    + left. repeat split. eauto.
Qed.

Lemma enabled_submit_settles_witness :
  let st' := fst (handleSubmit (Some "sk-1") (Failed None) filledForm) in
  loading st' = false
  /\ question st' = question filledForm
  /\ resolutionDate st' = resolutionDate filledForm
  /\ ((error st' = None
       /\ keyMissing (Some "sk-1") = false
       /\ exists content,
            Failed None = Completed content
            /\ generatedContent st' = parseModelResponse content)
      \/ (generatedContent st' = JNull
          /\ exists message,
               error st' = Some message /\ isEmpty message = false)).
Proof.
  apply (enabled_submit_settles (Some "sk-1") (Failed None) filledForm).
  reflexivity.
Defined.

(** X12.  [fetch] is called exactly when the question is not blank,
    the date is set and an API key other than the placeholder is
    configured; when it is not called, the error is the validation
    message or the key message. *)
Theorem request_needs_input_and_key (apiKey : option string) (reply : Reply)
    (st : AppState) :
  snd (handleSubmit apiKey reply st)
  = negb (isEmpty (trim (question st)) || isEmpty (resolutionDate st))
    && negb (keyMissing apiKey)
  /\ (snd (handleSubmit apiKey reply st) = false ->
      error (fst (handleSubmit apiKey reply st)) = Some validationMessage
      \/ error (fst (handleSubmit apiKey reply st)) = Some keyMessage).
Proof.
  unfold handleSubmit, attempt.
  destruct (isEmpty (trim (question st)) || isEmpty (resolutionDate st)).
  - cbn. auto.
  - destruct (keyMissing apiKey).
    + cbn. auto.
    + destruct reply; cbn; split; auto; discriminate.
Qed.

Lemma request_needs_input_and_key_witness :
  error (fst (handleSubmit None (Completed "{}") filledForm))
  = Some validationMessage
  \/ error (fst (handleSubmit None (Completed "{}") filledForm))
     = Some keyMessage.
Proof.
  apply (proj2 (request_needs_input_and_key None (Completed "{}") filledForm)).
  reflexivity.
Defined.

(** X13.  After the reset handler the content is cleared and the
    submit button is disabled; a submit in that state sends nothing and
    only sets the validation message. *)
Theorem reset_disables_submit (apiKey : option string) (reply : Reply)
    (st : AppState) :
  submitDisabled (reset st) = true
  /\ generatedContent (reset st) = JNull
  /\ handleSubmit apiKey reply (reset st)
     = (setError (Some validationMessage) (reset st), false).
Proof.
  unfold submitDisabled, handleSubmit, reset. cbn.
  repeat split. apply orb_true_r.
Qed.

(** ** The first place where the pattern opens *)

Module OpeningFacts.
Import Regex.

(** Where the whole pattern matches, its head up to the brace does. *)
Lemma matchHere_opens (s : string) (cap : option string) :
  matchHere jsonFence s = Some cap -> opensHere s = true.
Proof.
  intros H.
  apply matchHere_inv in H
    as (tag & ws1 & mid & ws2 & post & -> & Ht & H1 & _ & _).
  unfold opensHere, matchHere, opening, fencedText.
  change ("" ++ fence ++ tag ++ ws1 ++ "{" ++ mid ++ "}" ++ ws2 ++ fence ++ post)
    with (fence ++ tag ++ ws1 ++ String "{" (mid ++ "}" ++ ws2 ++ fence ++ post)).
  rewrite run_Seq, run_Lit, run_Seq, run_Opt.
  assert (E : run (Seq (Star isWhiteSpace) (Chr "{"))
                (ws1 ++ String "{" (mid ++ "}" ++ ws2 ++ fence ++ post)) None
                (fun _ cap => Some cap) = Some None).
  { rewrite run_Seq, run_Star, star_committed.
    - rewrite trimStart_blank_app by assumption.
      change (trimStart (String "{" (mid ++ "}" ++ ws2 ++ fence ++ post)))
        with (String "{" (mid ++ "}" ++ ws2 ++ fence ++ post)).
      now rewrite run_Chr, Ascii.eqb_refl.
    - intros c s' Hc. now rewrite run_Chr, (white_is_not "{" c). }
  destruct (isTag_spec _ Ht) as [-> | ->].
  - rewrite run_Lit_fail by (now apply (no_json_tag ws1)).
    change ("" ++ ws1 ++ String "{" (mid ++ "}" ++ ws2 ++ fence ++ post))
      with (ws1 ++ String "{" (mid ++ "}" ++ ws2 ++ fence ++ post)).
    now rewrite E.
  - rewrite run_Lit. now rewrite E.
Qed.

(** The search passes the places where the pattern does not open. *)
Lemma exec_first_opening (pre rest : string) :
  opensWithin (length pre) (pre ++ rest) = false ->
  exec jsonFence (pre ++ rest) = exec jsonFence rest.
Proof.
  induction pre as [|c pre IH]; auto.
  change (String c pre ++ rest) with (String c (pre ++ rest)).
  cbn [length opensWithin]. intros H.
  apply orb_false_iff in H as [H1 H2]. cbn [exec].
  destruct (matchHere jsonFence (String c (pre ++ rest))) eqn:E.
  - apply matchHere_opens in E. congruence.
  - now apply IH.
Qed.

End OpeningFacts.

Import OpeningFacts.

(** C3, as the code has it.  Take a fenced block: a triple backtick,
    an optional [json] tag, optional white space, a braced content,
    optional white space and a triple backtick.  When the pattern opens
    nowhere before it (no earlier triple backtick is followed by an
    optional [json], optional white space and an opening brace; other
    fences, such as a block of code in another language, may come
    first), and no closing brace followed by optional white space and a
    triple backtick comes after its closing fence, then whatever
    [JSON.parse] decodes from the braced content is the result, with all
    its values as decoded, whatever the prose around. *)
Theorem fenced_block_is_decoded (pre tag ws1 mid ws2 post : string)
    (decoded : JSValue) :
  opensWithin (length pre) (fencedText pre tag ws1 mid ws2 post) = false ->
  isTag tag = true ->
  allWhiteSpace ws1 = true -> allWhiteSpace ws2 = true ->
  closesWithin post = false ->
  Json.parse ("{" ++ mid ++ "}") = Some decoded ->
  parseModelResponse (fencedText pre tag ws1 mid ws2 post) = decoded.
Proof.
  intros Hpre Ht H1 H2 Hp Hd. unfold parseModelResponse, tryParse.
  change (fencedText pre tag ws1 mid ws2 post)
    with (pre ++ fencedText "" tag ws1 mid ws2 post) in *.
  rewrite (exec_first_opening _ _ Hpre).
  now rewrite (exec_fenced "" tag ws1 mid ws2 post eq_refl Ht H1 H2 Hp), Hd.
Qed.

Lemma fenced_block_is_decoded_witness :
  parseModelResponse afterCodeText = record "X" "Y" "Z".
Proof.
  apply (fenced_block_is_decoded
           afterCodeProse "json" nl
           (member "resolutionCriteria" "X" ++ "," ++ member "description" "Y"
              ++ "," ++ member "edgeCases" "Z")
           nl (nl ++ "Let me know if `this` helps.")
           (record "X" "Y" "Z")); reflexivity.
Defined.

(** ** Sections that collect nothing *)



